(** * IDBCursorBackendImpl: the IndexedDB cursor over a SQLite statement

    A shallow embedding of [Source/WebCore/storage/IDBCursorBackendImpl.cpp].
    The cursor object is a record that every method takes and gives back;
    the shared SQLite database is passed to the method that reads it; what a
    method does to the outside world (stepping the statement, the point
    query of [currentRowExists], the calls on [IDBCallbacks]) is returned as
    a list of effects in program order. *)

From Stdlib Require Import ZArith String.
From stdpp Require Import base decidable option list gmap strings.

Open Scope Z_scope.

Set Warnings "-clear-no-such-hyp".

(** ** The collaborators the cursor is written against *)

(** Result codes of [SQLiteStatement::step] that the cursor tells apart:
    it only ever tests for [SQLResultRow]. *)
Inductive SQLResult := SQLResultRow | SQLResultDone.

(** The two tables [currentRowExists] selects from. *)
Inductive Table := IndexData | ObjectStoreData.

(** [IDBSQLiteDatabase]: the ids present in each of the two tables.  The
    database is shared by the whole transaction, so it is an argument of
    the methods that read it, not a field of the cursor. *)
Record IDBSQLiteDatabase := {
  db_IndexData : gset Z;
  db_ObjectStoreData : gset Z
}.

Definition tableIds (db : IDBSQLiteDatabase) (t : Table) : gset Z :=
  match t with
  | IndexData => db_IndexData db
  | ObjectStoreData => db_ObjectStoreData db
  end.

(** [IDBCursor::Direction]. *)
Inductive Direction := NEXT | NEXT_NO_DUPLICATE | PREV | PREV_NO_DUPLICATE.

(** [IDBDatabaseException]: the only code this file raises. *)
Inductive ExceptionCode := NOT_ALLOWED_ERR.

(** [IDBObjectStoreBackendInterface::PutMode]. *)
Inductive PutMode := AddOrUpdate | AddOnly | CursorUpdate.

(** A [RefPtr] or [OwnPtr] tested as a condition: [isNull p] is [!p]. *)
Definition isNull {A} (p : option A) : bool :=
  match p with
  | None => true
  | Some _ => false
  end.

Section Cursor.

(** [IDBKey] is declared outside this file; the cursor only copies keys and
    compares them with [isEqual], so a key is any type with a decidable
    equality. *)
Context {IDBKey : Type} `{EqDecision IDBKey}.

(** [IDBCursorBackendImpl::InvalidId], declared in the class header: the
    row id that stands for "no row". *)
Variable InvalidId : Z.

(** [IDBKey::isEqual(IDBKey* other)]: [other] may be the null pointer. *)
Definition isEqual (k : IDBKey) (other : option IDBKey) : bool :=
  bool_decide (other = Some k).

(** A result row of the cursor's query, by what [loadCurrentRow] reads from
    it: column 0 with [getColumnInt64]; [IDBKey::fromQuery] at column 1,
    which every cursor query has, so that a key object comes back;
    column 4 with [getColumnBlobAsString]; [IDBKey::fromQuery] at column 5,
    the null pointer for the query of an object store, which has no such
    column.  Row ids are 64-bit integers that are only copied and
    compared. *)
Record Row := {
  col_id : Z;
  col_key : IDBKey;
  col_value : string;
  col_idbKeyValue : option IDBKey
}.

(** [SQLiteStatement], as far as the cursor uses it: the row the statement
    stands on and the rows that further calls of [step] will produce. *)
Record SQLiteStatement := {
  stmt_row : Row;
  stmt_pending : list Row
}.

(** [SQLiteStatement::step]. *)
Definition step (q : SQLiteStatement) : SQLResult * SQLiteStatement :=
  match stmt_pending q with
  | [] => (SQLResultDone, q)
  | r :: rest => (SQLResultRow, {| stmt_row := r; stmt_pending := rest |})
  end.

(** The members of [IDBCursorBackendImpl] that the methods read or write.
    [m_database], [m_transaction] and [m_objectStore] point to shared
    objects and [m_keyRange] is never read. *)
Record IDBCursorBackendImpl := {
  m_direction : Direction;
  m_query : option SQLiteStatement;
  m_isSerializedScriptValueCursor : bool;
  m_currentId : Z;
  m_currentKey : option IDBKey;
  m_currentSerializedScriptValue : option string;
  m_currentIDBKeyValue : option IDBKey
}.

(** What [IDBCallbacks] is called with. *)
Inductive CallbackCall :=
| OnError
| OnSuccessNull
| OnSuccessCursor (cursor : IDBCursorBackendImpl).

(** What a method does besides changing the cursor, in program order. *)
Inductive Effect :=
| QueryStep (result : SQLResult)
| ExistsQuery (table : Table) (id : Z) (found : bool)
| Callback (call : CallbackCall).

(** What [m_objectStore] is asked to do. *)
Inductive ContainerCall :=
| StorePut (value : string) (key : option IDBKey) (mode : PutMode)
| StoreDelete (key : option IDBKey).

(** How [update] and [deleteFunction] end: [ec] set and nothing else done,
    or the call handed to the object store (which owns [ec] from there). *)
Inductive MutationOutcome :=
| Rejected (ec : ExceptionCode)
| Delegated (call : ContainerCall).

(** ** The methods *)

Definition direction (c : IDBCursorBackendImpl) : Direction := m_direction c.

Definition key (c : IDBCursorBackendImpl) : option IDBKey := m_currentKey c.

(** [value]: the payload of a value cursor, else the referenced key. *)
Definition value (c : IDBCursorBackendImpl) : option string + option IDBKey :=
  if m_isSerializedScriptValueCursor c
  then inl (m_currentSerializedScriptValue c)
  else inr (m_currentIDBKeyValue c).

(** [loadCurrentRow].  It dereferences [m_query]; every caller holds a
    statement, and on a released one the model leaves the cursor as it is. *)
Definition loadCurrentRow (c : IDBCursorBackendImpl) : IDBCursorBackendImpl :=
  match m_query c with
  | None => c
  | Some q =>
    {| m_direction := m_direction c;
       m_query := m_query c;
       m_isSerializedScriptValueCursor := m_isSerializedScriptValueCursor c;
       m_currentId := col_id (stmt_row q);
       m_currentKey := Some (col_key (stmt_row q));
       m_currentSerializedScriptValue :=
         if m_isSerializedScriptValueCursor c
         then Some (col_value (stmt_row q))
         else m_currentSerializedScriptValue c;
       m_currentIDBKeyValue := col_idbKeyValue (stmt_row q) |}
  end.

(** The constructor: the members from the arguments, then [loadCurrentRow],
    which assigns [m_currentId] (not initialised before) and the keys.  The
    statement it is given stands on its first row. *)
Definition create (dir : Direction) (query : SQLiteStatement)
    (isSerializedScriptValueCursor : bool) : IDBCursorBackendImpl :=
  loadCurrentRow
    {| m_direction := dir;
       m_query := Some query;
       m_isSerializedScriptValueCursor := isSerializedScriptValueCursor;
       m_currentId := InvalidId;
       m_currentKey := None;
       m_currentSerializedScriptValue := None;
       m_currentIDBKeyValue := None |}.

(** The table [currentRowExists] selects from. *)
Definition currentTable (c : IDBCursorBackendImpl) : Table :=
  if isNull (m_currentIDBKeyValue c) then ObjectStoreData else IndexData.

(** [currentRowExists]. *)
Definition currentRowExists (db : IDBSQLiteDatabase)
    (c : IDBCursorBackendImpl) : bool :=
  bool_decide (m_currentId c ∈ tableIds db (currentTable c)).

Definition setQuery (c : IDBCursorBackendImpl)
    (q : option SQLiteStatement) : IDBCursorBackendImpl :=
  {| m_direction := m_direction c;
     m_query := q;
     m_isSerializedScriptValueCursor := m_isSerializedScriptValueCursor c;
     m_currentId := m_currentId c;
     m_currentKey := m_currentKey c;
     m_currentSerializedScriptValue := m_currentSerializedScriptValue c;
     m_currentIDBKeyValue := m_currentIDBKeyValue c |}.

(** Lines 121-125: the statement released and the position cleared. *)
Definition released (c : IDBCursorBackendImpl) : IDBCursorBackendImpl :=
  {| m_direction := m_direction c;
     m_query := None;
     m_isSerializedScriptValueCursor := m_isSerializedScriptValueCursor c;
     m_currentId := InvalidId;
     m_currentKey := None;
     m_currentSerializedScriptValue := None;
     m_currentIDBKeyValue := None |}.

(** Prefix the effects of a computation with one more. *)
Definition emit {A} (e : Effect) (p : A * list Effect) : A * list Effect :=
  (p.1, e :: p.2).

(** Lines 130-145: the rest of a turn of the loop once [step] has produced
    a row, [q] being the statement after that step; [again] is where
    [continue] leads, the next turn of the loop. *)
Definition loopTurn (db : IDBSQLiteDatabase) (key : option IDBKey)
    (cursor : IDBCursorBackendImpl) (q : SQLiteStatement)
    (again : IDBCursorBackendImpl → IDBCursorBackendImpl * list Effect)
    : IDBCursorBackendImpl * list Effect :=
  let oldKey := m_currentKey cursor in
  let cursor := loadCurrentRow (setQuery cursor (Some q)) in
  let found := currentRowExists db cursor in
  emit (ExistsQuery (currentTable cursor) (m_currentId cursor) found)
    (if negb found then again cursor
     else if match key with
             | Some k => negb (isEqual k (m_currentKey cursor))
             | None => false
             end
     then again cursor
     else if match m_direction cursor with
             | NEXT | PREV => true
             | NEXT_NO_DUPLICATE | PREV_NO_DUPLICATE => false
             end
     then (cursor, [Callback (OnSuccessCursor cursor)])
     else if match m_currentKey cursor with
             | Some k => negb (isEqual k oldKey)
             | None => true
             end
     then (cursor, [Callback (OnSuccessCursor cursor)])
     else again cursor).

(** The [while (true)] loop of [continueFunctionInternal] for a cursor that
    holds a statement, by recursion on the rows the statement has left:
    every turn of the loop steps the statement once. *)
Fixpoint continueLoop (db : IDBSQLiteDatabase) (key : option IDBKey)
    (cursor : IDBCursorBackendImpl) (pending : list Row)
    : IDBCursorBackendImpl * list Effect :=
  match pending with
  | [] =>
    emit (QueryStep SQLResultDone)
      (released cursor, [Callback OnSuccessNull])
  | r :: rest =>
    emit (QueryStep SQLResultRow)
      (loopTurn db key cursor {| stmt_row := r; stmt_pending := rest |}
         (λ cursor, continueLoop db key cursor rest))
  end.

(** [continueFunctionInternal]: the task body.  The scheduled task holds a
    reference to the cursor, so it runs on the cursor as it is then. *)
Definition continueFunctionInternal (db : IDBSQLiteDatabase)
    (cursor : IDBCursorBackendImpl) (key : option IDBKey)
    : IDBCursorBackendImpl * list Effect :=
  match m_query cursor with
  | None => (released cursor, [Callback OnSuccessNull])
  | Some q => continueLoop db key cursor (stmt_pending q)
  end.

(** [update]. *)
Definition update (c : IDBCursorBackendImpl) (value : string)
    : IDBCursorBackendImpl * MutationOutcome :=
  if isNull (m_query c)
     || bool_decide (m_currentId c = InvalidId)
     || negb (m_isSerializedScriptValueCursor c)
  then (c, Rejected NOT_ALLOWED_ERR)
  else
    let key :=
      if isNull (m_currentIDBKeyValue c) then m_currentKey c
      else m_currentIDBKeyValue c in
    (c, Delegated (StorePut value key CursorUpdate)).

(** [deleteFunction]. *)
Definition deleteFunction (c : IDBCursorBackendImpl)
    : IDBCursorBackendImpl * MutationOutcome :=
  if isNull (m_query c)
     || bool_decide (m_currentId c = InvalidId)
     || negb (m_isSerializedScriptValueCursor c)
  then (c, Rejected NOT_ALLOWED_ERR)
  else
    let key :=
      if isNull (m_currentIDBKeyValue c) then m_currentKey c
      else m_currentIDBKeyValue c in
    (c, Delegated (StoreDelete key)).

(** ** Scheduling *)

(** The task [continueFunction] creates: [continueFunctionInternal] bound to
    the cursor (by reference), the key and the callbacks. *)
Inductive Task := ContinueTask (key : option IDBKey).

(** Modelled from the spec: [IDBTransactionBackendInterface::scheduleTask]
    is implemented outside this file.  The transaction executor offers
    "scheduleTask(fn) -> bool (false => rejected, no task enqueued)";
    accepted tasks run in submission order.  Whether the transaction still
    takes work is its own state, kept here as a flag. *)
Record Transaction := {
  txn_rejects : bool;
  txn_tasks : list Task
}.

(** Modelled from the spec: [scheduleTask] by the sentence quoted above; a
    refused task leaves the queue as it is, an accepted one goes to its
    end. *)
Definition scheduleTask (txn : Transaction) (task : Task)
    : bool * Transaction :=
  if txn_rejects txn then (false, txn)
  else (true, {| txn_rejects := false; txn_tasks := txn_tasks txn ++ [task] |}).

(** [continueFunction]: [ec] is written only when scheduling fails. *)
Definition continueFunction (cursor : IDBCursorBackendImpl)
    (txn : Transaction) (prpKey : option IDBKey)
    : Transaction * option ExceptionCode :=
  let '(scheduled, txn) := scheduleTask txn (ContinueTask prpKey) in
  if negb scheduled then (txn, Some NOT_ALLOWED_ERR) else (txn, None).

(** The transaction running a task of its queue. *)
Definition runTask (db : IDBSQLiteDatabase) (cursor : IDBCursorBackendImpl)
    (task : Task) : IDBCursorBackendImpl * list Effect :=
  match task with
  | ContinueTask key => continueFunctionInternal db cursor key
  end.

(** ** Vocabulary of the specification *)

(** The calls on [IDBCallbacks] among the effects. *)
Fixpoint callbacks (t : list Effect) : list CallbackCall :=
  match t with
  | [] => []
  | Callback call :: t => call :: callbacks t
  | _ :: t => callbacks t
  end.

(** The current keys of the cursors handed to [onSuccess]. *)
Fixpoint deliveredKeys (calls : list CallbackCall) : list (option IDBKey) :=
  match calls with
  | [] => []
  | OnSuccessCursor c :: calls => m_currentKey c :: deliveredKeys calls
  | _ :: calls => deliveredKeys calls
  end.

(** The cursor standing on row [r] with [rest] still to come: what one step
    of the statement followed by [loadCurrentRow] makes of [c]. *)
Definition positioned (c : IDBCursorBackendImpl) (r : Row) (rest : list Row)
    : IDBCursorBackendImpl :=
  loadCurrentRow
    (setQuery c (Some {| stmt_row := r; stmt_pending := rest |})).

(** The rows the cursor's statement has not produced yet. *)
Definition pendingRows (c : IDBCursorBackendImpl) : list Row :=
  match m_query c with
  | None => []
  | Some q => stmt_pending q
  end.

(** The authoritative table of a row: [IndexData] when the row carries a
    secondary key value, [ObjectStoreData] otherwise. *)
Definition authoritativeTable (r : Row) : Table :=
  match col_idbKeyValue r with
  | Some _ => IndexData
  | None => ObjectStoreData
  end.

(** The row still exists in its authoritative table. *)
Definition rowLive (db : IDBSQLiteDatabase) (r : Row) : bool :=
  bool_decide (col_id r ∈ tableIds db (authoritativeTable r)).

Definition isNoDuplicate (d : Direction) : bool :=
  match d with
  | NEXT_NO_DUPLICATE | PREV_NO_DUPLICATE => true
  | NEXT | PREV => false
  end.

(** The row's key is the requested one, when one was requested. *)
Definition matchesTarget (target : option IDBKey) (r : Row) : bool :=
  match target with
  | None => true
  | Some k => bool_decide (col_key r = k)
  end.

(** The filters of the advance algorithm, in the order of the
    specification: tombstone check, target-key filter, duplicate collapse. *)
Inductive Verdict := Tombstoned | TargetMismatch | Duplicate | Accept.

Definition verdict (db : IDBSQLiteDatabase) (target : option IDBKey)
    (d : Direction) (previousKey : option IDBKey) (r : Row) : Verdict :=
  if negb (rowLive db r) then Tombstoned
  else if negb (matchesTarget target r) then TargetMismatch
  else if isNoDuplicate d && bool_decide (previousKey = Some (col_key r))
  then Duplicate
  else Accept.

(** The condition under which the specification lets [updateCurrent] and
    [deleteCurrent] fail, and the key it routes the write to. *)
Definition mutationRefused (c : IDBCursorBackendImpl) : Prop :=
  m_query c = None ∨ m_currentId c = InvalidId
  ∨ m_isSerializedScriptValueCursor c = false.

Definition writeTarget (c : IDBCursorBackendImpl) : option IDBKey :=
  match m_currentIDBKeyValue c with
  | Some k => Some k
  | None => m_currentKey c
  end.

(** One advance as the specification tells it, over the rows left: the
    first row the filters accept, with the rows after it.  The key a
    candidate is compared with is the key of the row loaded before it,
    whether that row was accepted or discarded. *)
Fixpoint scan (db : IDBSQLiteDatabase) (target : option IDBKey)
    (d : Direction) (previousKey : option IDBKey) (rows : list Row)
    : option (Row * list Row) :=
  match rows with
  | [] => None
  | r :: rest =>
    match verdict db target d previousKey r with
    | Accept => Some (r, rest)
    | _ => scan db target d (Some (col_key r)) rest
    end
  end.

(** What an advance leaves and reports, by what [scan] finds. *)
Definition landing (c : IDBCursorBackendImpl)
    (found : option (Row * list Row)) : IDBCursorBackendImpl :=
  match found with
  | Some (r, rest) => positioned c r rest
  | None => released c
  end.

Definition report (c : IDBCursorBackendImpl)
    (found : option (Row * list Row)) : CallbackCall :=
  match found with
  | Some (r, rest) => OnSuccessCursor (positioned c r rest)
  | None => OnSuccessNull
  end.

(** Iterating by repeated advances without a target key, until the
    callback gets the empty result; [fuel] bounds the number of advances. *)
Fixpoint iterate (fuel : nat) (db : IDBSQLiteDatabase)
    (c : IDBCursorBackendImpl) : list CallbackCall :=
  match fuel with
  | O => []
  | S fuel =>
    let '(c, t) := continueFunctionInternal db c None in
    match m_query c with
    | None => callbacks t
    | Some _ => callbacks t ++ iterate fuel db c
    end
  end.

(** Every advance consumes a row or ends the iteration, so one advance more
    than there are rows left is enough. *)
Definition iterateAll (db : IDBSQLiteDatabase) (c : IDBCursorBackendImpl)
    : list CallbackCall :=
  iterate (S (length (pendingRows c))) db c.

(** One key per group of equal adjacent keys; [previous] is the key just
    before the list. *)
Fixpoint collapse (previous : option IDBKey) (keys : list IDBKey)
    : list IDBKey :=
  match keys with
  | [] => []
  | k :: keys =>
    if bool_decide (previous = Some k) then collapse (Some k) keys
    else k :: collapse (Some k) keys
  end.

(** Every row that starts a group of equal adjacent keys is live. *)
Fixpoint headsLive (db : IDBSQLiteDatabase) (previous : option IDBKey)
    (rows : list Row) : bool :=
  match rows with
  | [] => true
  | r :: rows =>
    (bool_decide (previous = Some (col_key r)) || rowLive db r)
    && headsLive db (Some (col_key r)) rows
  end.

(** No row of the statement carries the id that stands for "no row". *)
Definition validIds (q : SQLiteStatement) : Prop :=
  Forall (λ r, col_id r ≠ InvalidId) (stmt_row q :: stmt_pending q).

(** The cursors a program can hold: made by the constructor over a
    statement with valid ids, then advanced, updated and deleted through,
    with the database in any state at each advance. *)
Inductive reachable : IDBCursorBackendImpl → Prop :=
| reachable_create dir q isValue :
    validIds q → reachable (create dir q isValue)
| reachable_continue db c key :
    reachable c → reachable (continueFunctionInternal db c key).1
| reachable_update c v :
    reachable c → reachable (update c v).1
| reachable_delete c :
    reachable c → reachable (deleteFunction c).1.

(** What holds of every cursor a program can hold: it is exhausted, or it
    stands on the row of its statement, whose ids are all valid. *)
Definition wellPositioned (c : IDBCursorBackendImpl) : Prop :=
  (m_query c = None ∧ m_currentId c = InvalidId ∧ m_currentKey c = None)
  ∨ (∃ q, m_query c = Some q ∧ validIds q
          ∧ m_currentId c = col_id (stmt_row q)
          ∧ m_currentKey c = Some (col_key (stmt_row q))).

(** ** Sentences of the specification, as they are written *)

(** "An advance request issued when the cursor has no backing query fails
    with NotAllowed, before any asynchronous work is attempted." *)
Definition continueRejectsExhausted (c : IDBCursorBackendImpl)
    (txn : Transaction) (target : option IDBKey) : Prop :=
  m_query c = None →
  (continueFunction c txn target).2 = Some NOT_ALLOWED_ERR
  ∧ (continueFunction c txn target).1 = txn.

(** "Exactly one callback with key K is delivered per group of equal
    adjacent keys": iterating delivers the keys of the rows left, adjacent
    repetitions collapsed. *)
Definition oneDeliveryPerGroup (db : IDBSQLiteDatabase)
    (c : IDBCursorBackendImpl) : Prop :=
  deliveredKeys (iterateAll db c)
  = Some <$> collapse (m_currentKey c) (col_key <$> pendingRows c).

(** "Advancing skips a deleted row transparently": with the deleted row
    next in the statement, the advance reports what it reports on the
    statement without that row. *)
Definition skipsTransparently (db : IDBSQLiteDatabase)
    (c : IDBCursorBackendImpl) (target : option IDBKey) (r : Row)
    (rest : list Row) : Prop :=
  rowLive db r = false →
  deliveredKeys (callbacks (continueLoop db target c (r :: rest)).2)
  = deliveredKeys (callbacks (continueLoop db target c rest).2).

(** ** Vocabulary for the whole iteration and for the trace *)

(** Row id and key of the cursors handed to [onSuccess]. *)
Fixpoint deliveredRows (calls : list CallbackCall)
    : list (Z * option IDBKey) :=
  match calls with
  | [] => []
  | OnSuccessCursor c :: calls =>
    (m_currentId c, m_currentKey c) :: deliveredRows calls
  | _ :: calls => deliveredRows calls
  end.

(** Id and key of a row, as a cursor standing on it shows them. *)
Definition rowIdKey (r : Row) : Z * option IDBKey :=
  (col_id r, Some (col_key r)).

(** The rows the filters accept when every advance comes without target
    key: each row is judged against the key of the row before it in the
    statement, [previous] for the first. *)
Fixpoint accepted (db : IDBSQLiteDatabase) (d : Direction)
    (previous : option IDBKey) (rows : list Row) : list Row :=
  match rows with
  | [] => []
  | r :: rest =>
    match verdict db None d previous r with
    | Accept => r :: accepted db d (Some (col_key r)) rest
    | _ => accepted db d (Some (col_key r)) rest
    end
  end.

(** Every row with the key of the row before it, [previous] for the
    first. *)
Fixpoint withPrevious (previous : option IDBKey) (rows : list Row)
    : list (option IDBKey * Row) :=
  match rows with
  | [] => []
  | r :: rest => (previous, r) :: withPrevious (Some (col_key r)) rest
  end.

(** The point queries of [currentRowExists] among the effects. *)
Fixpoint existsQueries (t : list Effect) : list (Table * Z * bool) :=
  match t with
  | [] => []
  | ExistsQuery table id found :: t => (table, id, found) :: existsQueries t
  | _ :: t => existsQueries t
  end.

(** The point query a fetched row gives rise to. *)
Definition rowQuery (db : IDBSQLiteDatabase) (r : Row) : Table * Z * bool :=
  (authoritativeTable r, col_id r, rowLive db r).

(** The steps of the statement among the effects. *)
Fixpoint querySteps (t : list Effect) : list SQLResult :=
  match t with
  | [] => []
  | QueryStep result :: t => result :: querySteps t
  | _ :: t => querySteps t
  end.

(** The cursors made by the constructor over any statement and then
    advanced, updated and deleted through. *)
Inductive built : IDBCursorBackendImpl → Prop :=
| built_create dir q isValue : built (create dir q isValue)
| built_continue db c key :
    built c → built (continueFunctionInternal db c key).1
| built_update c v : built c → built (update c v).1
| built_delete c : built c → built (deleteFunction c).1.

(** The position members agree with the row the statement stands on, and
    are cleared when there is no statement. *)
Definition inSync (c : IDBCursorBackendImpl) : Prop :=
  match m_query c with
  | None =>
    m_currentId c = InvalidId ∧ m_currentKey c = None
    ∧ m_currentSerializedScriptValue c = None
    ∧ m_currentIDBKeyValue c = None
  | Some q =>
    m_currentId c = col_id (stmt_row q)
    ∧ m_currentKey c = Some (col_key (stmt_row q))
    ∧ m_currentSerializedScriptValue c
      = (if m_isSerializedScriptValueCursor c
         then Some (col_value (stmt_row q)) else None)
    ∧ m_currentIDBKeyValue c = col_idbKeyValue (stmt_row q)
  end.

(** The transaction running tasks one after the other on the cursor, the
    database being in the given state when each task runs. *)
Fixpoint runQueue (c : IDBCursorBackendImpl)
    (work : list (IDBSQLiteDatabase * Task))
    : IDBCursorBackendImpl * list Effect :=
  match work with
  | [] => (c, [])
  | (db, task) :: work =>
    let '(c, t) := runTask db c task in
    let '(c, t') := runQueue c work in
    (c, t ++ t')
  end.

(** ** Iterating while the database changes *)

(** Advance tasks without target key, one per database state: the state
    the database is in when the task runs. *)
Definition advances (dbs : list IDBSQLiteDatabase)
    : list (IDBSQLiteDatabase * Task) :=
  (λ db, (db, ContinueTask None)) <$> dbs.

(** The key of the row just before a run that comes after [rows]:
    [previous] when no row comes before it. *)
Fixpoint lastKey (previous : option IDBKey) (rows : list Row)
    : option IDBKey :=
  match rows with
  | [] => previous
  | r :: rest => lastKey (Some (col_key r)) rest
  end.

(** What such tasks fetch, row by row: the row, whether it was live in the
    database of the task that fetched it, and whether that task stopped on
    it.  A task that stops hands over to the next database. *)
Fixpoint fetchLog (d : Direction) (previous : option IDBKey)
    (rows : list Row) (dbs : list IDBSQLiteDatabase)
    : list (Row * bool * bool) :=
  match rows, dbs with
  | r :: rest, db :: later =>
    match verdict db None d previous r with
    | Accept =>
      (r, rowLive db r, true) :: fetchLog d (Some (col_key r)) rest later
    | _ => (r, rowLive db r, false) :: fetchLog d (Some (col_key r)) rest dbs
    end
  | _, _ => []
  end.

(** The point query of an entry of the log. *)
Definition logQuery (e : Row * bool * bool) : Table * Z * bool :=
  (authoritativeTable e.1.1, col_id e.1.1, e.1.2).

(** The rows of the log a task stopped on. *)
Fixpoint deliveredOf (log : list (Row * bool * bool)) : list Row :=
  match log with
  | [] => []
  | (r, _, true) :: log => r :: deliveredOf log
  | (_, _, false) :: log => deliveredOf log
  end.

End Cursor.

Arguments Row IDBKey : clear implicits.
Arguments SQLiteStatement IDBKey : clear implicits.
Arguments IDBCursorBackendImpl IDBKey : clear implicits.
Arguments CallbackCall IDBKey : clear implicits.
Arguments Effect IDBKey : clear implicits.
Arguments ContainerCall IDBKey : clear implicits.
Arguments MutationOutcome IDBKey : clear implicits.
Arguments Task IDBKey : clear implicits.
Arguments Transaction IDBKey : clear implicits.

(** ** Sample data: string keys, [InvalidId] 0 *)

Module Sample.

(** A row of an object-store query: no column 5. *)
Definition objectRow (id : Z) (k : string) : Row string :=
  {| col_id := id; col_key := k; col_value := k; col_idbKeyValue := None |}.

(** A row of an index query: the index key, and at column 5 the key of the
    object-store record the entry points to. *)
Definition indexRow (id : Z) (k primary : string) : Row string :=
  {| col_id := id; col_key := k; col_value := primary;
     col_idbKeyValue := Some primary |}.

(** Entries A, B, B, C of an index whose key B is shared by two records. *)
Definition rowA := indexRow 1 "A" "p1".
Definition rowB1 := indexRow 2 "B" "p2".
Definition rowB2 := indexRow 3 "B" "p3".
Definition rowC := indexRow 4 "C" "p4".

Definition statement : SQLiteStatement string :=
  {| stmt_row := rowA; stmt_pending := [rowB1; rowB2; rowC] |}.

Definition allLive : IDBSQLiteDatabase :=
  {| db_IndexData := {[1; 2; 3; 4]};
     db_ObjectStoreData := {[101; 102; 103; 104]} |}.

(** Entry 2, the first B, deleted. *)
Definition firstBDeleted : IDBSQLiteDatabase :=
  {| db_IndexData := {[1; 3; 4]};
     db_ObjectStoreData := {[101; 103; 104]} |}.

(** Entries 2 and 3, both B, deleted. *)
Definition bothBDeleted : IDBSQLiteDatabase :=
  {| db_IndexData := {[1; 4]}; db_ObjectStoreData := {[101; 104]} |}.

(** The value cursor of [openCursor] on the index. *)
Definition cursor (dir : Direction) : IDBCursorBackendImpl string :=
  create 0 dir statement true.

(** Entries A, B, B, C, C, D of the index, and the database after entry 2
    was deleted, and after entry 5 was deleted too. *)
Definition rowC2 := indexRow 5 "C" "p5".
Definition rowD := indexRow 6 "D" "p6".

Definition longStatement : SQLiteStatement string :=
  {| stmt_row := rowA; stmt_pending := [rowB1; rowB2; rowC; rowC2; rowD] |}.

Definition entry2Deleted : IDBSQLiteDatabase :=
  {| db_IndexData := {[1; 3; 4; 5; 6]}; db_ObjectStoreData := ∅ |}.

Definition entries2And5Deleted : IDBSQLiteDatabase :=
  {| db_IndexData := {[1; 3; 4; 6]}; db_ObjectStoreData := ∅ |}.

(** The same entries without entry 2. *)
Definition statementWithoutB1 : SQLiteStatement string :=
  {| stmt_row := rowA; stmt_pending := [rowB2; rowC] |}.

(** Records A, B, C of an object store; record 11, B, is deleted, while an
    index entry happens to have that id. *)
Definition storeStatement : SQLiteStatement string :=
  {| stmt_row := objectRow 10 "A";
     stmt_pending := [objectRow 11 "B"; objectRow 12 "C"] |}.

Definition recordBDeleted : IDBSQLiteDatabase :=
  {| db_IndexData := {[11]}; db_ObjectStoreData := {[10; 12]} |}.

(** A cursor over the single entry A, advanced past it. *)
Definition exhausted : IDBCursorBackendImpl string :=
  (continueFunctionInternal 0 allLive
     (create 0 NEXT {| stmt_row := rowA; stmt_pending := [] |} true) None).1.

Definition openTxn : Transaction string :=
  {| txn_rejects := false; txn_tasks := [] |}.

Definition finishedTxn : Transaction string :=
  {| txn_rejects := true; txn_tasks := [] |}.

End Sample.

(** ** Properties *)

Section Properties.

Context {IDBKey : Type} `{EqDecision IDBKey}.
Variable InvalidId : Z.

Implicit Types (db : IDBSQLiteDatabase) (r : Row IDBKey).
Implicit Types (c : IDBCursorBackendImpl IDBKey).
Implicit Types (target previous : option IDBKey).

(** *** The cursor after a row is loaded *)

Lemma positioned_query c r rest :
  m_query (positioned c r rest)
  = Some {| stmt_row := r; stmt_pending := rest |}.
Proof. reflexivity. Qed.

Lemma positioned_key c r rest :
  m_currentKey (positioned c r rest) = Some (col_key r).
Proof. reflexivity. Qed.

Lemma positioned_id c r rest : m_currentId (positioned c r rest) = col_id r.
Proof. reflexivity. Qed.

Lemma positioned_direction c r rest :
  m_direction (positioned c r rest) = m_direction c.
Proof. reflexivity. Qed.

Lemma positioned_table c r rest :
  currentTable (positioned c r rest) = authoritativeTable r.
Proof.
  unfold currentTable, authoritativeTable; cbn.
  by destruct (col_idbKeyValue r).
Qed.

Lemma positioned_exists db c r rest :
  currentRowExists db (positioned c r rest) = rowLive db r.
Proof.
  unfold currentRowExists, rowLive.
  by rewrite positioned_table, positioned_id.
Qed.

(** Loading a row forgets the row loaded before it. *)
Lemma positioned_positioned c r0 rest0 r rest :
  positioned (positioned c r0 rest0) r rest = positioned c r rest.
Proof.
  unfold positioned, loadCurrentRow, setQuery; cbn.
  by destruct (m_isSerializedScriptValueCursor c).
Qed.

Lemma released_positioned c r rest :
  released InvalidId (positioned c r rest) = released InvalidId c.
Proof. reflexivity. Qed.

Lemma isEqual_target k r :
  negb (isEqual k (Some (col_key r))) = negb (matchesTarget (Some k) r).
Proof.
  unfold isEqual, matchesTarget. f_equal.
  apply bool_decide_ext. split; [by intros [= ->] | by intros ->].
Qed.

(** *** The task body and the source's loop *)

(** The task body obeys the equation of the loop as the source writes it:
    a released statement or a step without row ends the task with the
    empty result; a step with a row is followed by the rest of the turn,
    and [continue] runs the body again. *)
Lemma continueFunctionInternal_unfold db c target :
  continueFunctionInternal InvalidId db c target
  = match m_query c with
    | None => (released InvalidId c, [Callback OnSuccessNull])
    | Some q =>
      match step q with
      | (SQLResultRow, q') =>
        emit (QueryStep SQLResultRow)
          (loopTurn db target c q'
             (λ c', continueFunctionInternal InvalidId db c' target))
      | (SQLResultDone, _) =>
        emit (QueryStep SQLResultDone)
          (released InvalidId c, [Callback OnSuccessNull])
      end
    end.
Proof.
  unfold continueFunctionInternal at 1, step.
  destruct (m_query c) as [[row [|r rest]]|]; reflexivity.
Qed.

(** *** One turn of the loop *)

(** The loop body, read through the filters of the specification. *)
Lemma continueLoop_cons db target c r rest :
  continueLoop InvalidId db target c (r :: rest)
  = emit (QueryStep SQLResultRow)
      (emit (ExistsQuery (authoritativeTable r) (col_id r) (rowLive db r))
         match verdict db target (m_direction c) (m_currentKey c) r with
         | Accept =>
           (positioned c r rest,
            [Callback (OnSuccessCursor (positioned c r rest))])
         | _ => continueLoop InvalidId db target (positioned c r rest) rest
         end).
Proof.
  cbn [continueLoop]. unfold loopTurn. fold (positioned c r rest).
  rewrite positioned_exists, positioned_table, positioned_id,
    positioned_key, positioned_direction.
  unfold verdict. do 2 f_equal.
  destruct (rowLive db r); cbn [negb]; [|done].
  destruct target as [k|].
  - rewrite isEqual_target. destruct (matchesTarget (Some k) r); cbn [negb]; [|done].
    unfold isEqual.
    destruct (m_direction c); cbn [isNoDuplicate andb]; try done;
      by destruct (bool_decide (m_currentKey c = Some (col_key r))).
  - cbn [matchesTarget negb]. unfold isEqual.
    destruct (m_direction c); cbn [isNoDuplicate andb]; try done;
      by destruct (bool_decide (m_currentKey c = Some (col_key r))).
Qed.

(** The task body is the loop over the rows the statement has left. *)
Lemma continueFunctionInternal_positioned db target c r rest :
  continueFunctionInternal InvalidId db (positioned c r rest) target
  = continueLoop InvalidId db target (positioned c r rest) rest.
Proof. reflexivity. Qed.

Lemma continueFunctionInternal_pending db target c :
  is_Some (m_query c) →
  continueFunctionInternal InvalidId db c target
  = continueLoop InvalidId db target c (pendingRows c).
Proof.
  intros [q Hq]. unfold continueFunctionInternal, pendingRows. by rewrite Hq.
Qed.

(** *** The loop against the advance algorithm on rows *)

Lemma landing_positioned c r0 rest0 found :
  landing InvalidId (positioned c r0 rest0) found = landing InvalidId c found.
Proof.
  destruct found as [[r rest]|]; cbn [landing];
    [apply positioned_positioned | apply released_positioned].
Qed.

Lemma report_positioned c r0 rest0 found :
  report (positioned c r0 rest0) found = report c found.
Proof.
  destruct found as [[r rest]|]; cbn [report]; [|done].
  by rewrite positioned_positioned.
Qed.

Lemma continueLoop_scan db target c rows :
  let found := scan db target (m_direction c) (m_currentKey c) rows in
  (continueLoop InvalidId db target c rows).1 = landing InvalidId c found
  ∧ callbacks (continueLoop InvalidId db target c rows).2 = [report c found].
Proof.
  revert c. induction rows as [|r rest IH]; intros c; [done|].
  rewrite continueLoop_cons. cbn [scan emit fst snd callbacks].
  destruct (verdict db target (m_direction c) (m_currentKey c) r);
    try done;
    specialize (IH (positioned c r rest));
    rewrite positioned_direction, positioned_key in IH;
    cbn zeta in IH; by rewrite landing_positioned, report_positioned in IH.
Qed.


Lemma continueFunctionInternal_released db target c :
  m_query c = None →
  continueFunctionInternal InvalidId db c target
  = (released InvalidId c, [Callback OnSuccessNull]).
Proof. intros Hq. unfold continueFunctionInternal. by rewrite Hq. Qed.

(** The advance of a cursor that holds a statement. *)
Lemma continueFunctionInternal_scan db target c :
  is_Some (m_query c) →
  let found := scan db target (m_direction c) (m_currentKey c) (pendingRows c) in
  (continueFunctionInternal InvalidId db c target).1 = landing InvalidId c found
  ∧ callbacks (continueFunctionInternal InvalidId db c target).2
    = [report c found].
Proof.
  intros Hq. rewrite continueFunctionInternal_pending by done.
  apply continueLoop_scan.
Qed.

(** *** What [scan] accepts *)

Lemma verdict_Accept db target d previous r :
  verdict db target d previous r = Accept
  ↔ rowLive db r = true ∧ matchesTarget target r = true
    ∧ (isNoDuplicate d = true → previous ≠ Some (col_key r)).
Proof.
  unfold verdict.
  destruct (rowLive db r); cbn [negb]; [|naive_solver].
  destruct (matchesTarget target r); cbn [negb]; [|naive_solver].
  destruct (isNoDuplicate d); cbn [andb]; [|naive_solver].
  case_bool_decide; naive_solver.
Qed.

Lemma scan_Some db target d previous rows r rest :
  scan db target d previous rows = Some (r, rest) →
  ∃ skipped, rows = skipped ++ r :: rest
    ∧ rowLive db r = true ∧ matchesTarget target r = true.
Proof.
  revert previous. induction rows as [|r0 rows IH]; intros previous; [done|].
  cbn [scan]. destruct (verdict db target d previous r0) eqn:Hv;
    try (intros Hs; destruct (IH _ Hs) as (skipped & -> & ?);
         by exists (r0 :: skipped)).
  intros [= -> ->]. apply verdict_Accept in Hv as (? & ? & _).
  by exists [].
Qed.

Lemma scan_None db target d previous rows :
  Forall (λ r, rowLive db r && matchesTarget target r = false) rows →
  scan db target d previous rows = None.
Proof.
  intros Hrows. revert previous.
  induction Hrows as [|r rows Hr _ IH]; intros previous; [done|].
  cbn [scan]. destruct (verdict db target d previous r) eqn:Hv; try done.
  apply verdict_Accept in Hv as (Hl & Hm & _).
  by rewrite Hl, Hm in Hr.
Qed.

(** *** The advance task *)

(** C1.  An advance task on a cursor that holds a statement with a row
    left steps to that row, asks the row's authoritative table ([IndexData]
    when the row carries a secondary key value, [ObjectStoreData]
    otherwise) whether it still exists, and then goes by the filters in the
    order tombstone, target key, duplicate (the last only for the
    no-duplicate directions, against the key the cursor held when the row
    was fetched): a discarded row makes the task start over on the cursor
    now standing on that row; an accepted row is the new position and the
    callback gets the cursor itself.  For [NEXT] and [PREV] a live row that
    matches the target is accepted at once. *)
Theorem continue_filters_in_order db c target q r rest :
  m_query c = Some q →
  stmt_pending q = r :: rest →
  continueFunctionInternal InvalidId db c target
  = emit (QueryStep SQLResultRow)
      (emit (ExistsQuery (authoritativeTable r) (col_id r) (rowLive db r))
         match verdict db target (m_direction c) (m_currentKey c) r with
         | Accept =>
           (positioned c r rest,
            [Callback (OnSuccessCursor (positioned c r rest))])
         | Tombstoned | TargetMismatch | Duplicate =>
           continueFunctionInternal InvalidId db (positioned c r rest) target
         end)
  ∧ (isNoDuplicate (m_direction c) = false →
     rowLive db r = true → matchesTarget target r = true →
     continueFunctionInternal InvalidId db c target
     = (positioned c r rest,
        [QueryStep SQLResultRow;
         ExistsQuery (authoritativeTable r) (col_id r) true;
         Callback (OnSuccessCursor (positioned c r rest))])).
Proof.
  intros Hq Hrows.
  assert (continueFunctionInternal InvalidId db c target
          = continueLoop InvalidId db target c (r :: rest)) as ->.
  { unfold continueFunctionInternal. by rewrite Hq, Hrows. }
  rewrite continueLoop_cons, continueFunctionInternal_positioned.
  split; [by destruct (verdict _ _ _ _ _)|].
  intros Hdir Hlive Hmatch.
  assert (verdict db target (m_direction c) (m_currentKey c) r = Accept) as ->.
  { apply verdict_Accept. by rewrite Hdir. }
  by rewrite Hlive.
Qed.

(** C9.  An advance task ends, and it has called the callback exactly
    once: with the cursor, which then holds its statement and a current
    key, or with the empty result, the cursor then holding neither.
    [onError] is never called. *)
Theorem continue_calls_back_once db c target :
  let result := continueFunctionInternal InvalidId db c target in
  (callbacks result.2 = [OnSuccessCursor result.1]
   ∧ is_Some (m_query result.1) ∧ is_Some (m_currentKey result.1))
  ∨ (callbacks result.2 = [OnSuccessNull]
     ∧ m_query result.1 = None ∧ m_currentKey result.1 = None).
Proof.
  destruct (m_query c) as [q|] eqn:Hq.
  - destruct (continueFunctionInternal_scan db target c) as [H1 H2]; [by eexists|].
    cbn zeta. rewrite H1, H2.
    destruct (scan _ _ _ _ _) as [[r rest]|]; cbn [landing report].
    + left. rewrite positioned_query, positioned_key. eauto.
    + by right.
  - cbn zeta. rewrite continueFunctionInternal_released by done. by right.
Qed.


(** X4.  An advance task with target key [k] ends in one of two ways.  Either
    it stops on a row of the statement that is live and has key [k], and
    the callback gets the cursor; or the cursor is left exhausted and the
    callback gets the empty result.  When no row left in the statement is
    live with key [k], it is the second. *)
Lemma continue_to_target_outcome db c k :
  let result := continueFunctionInternal InvalidId db c (Some k) in
  ((∃ skipped r rest,
      pendingRows c = skipped ++ r :: rest
      ∧ rowLive db r = true ∧ col_key r = k
      ∧ result.1 = positioned c r rest
      ∧ callbacks result.2 = [OnSuccessCursor result.1])
   ∨ (result.1 = released InvalidId c
      ∧ callbacks result.2 = [OnSuccessNull]))
  ∧ (Forall (λ r, rowLive db r = false ∨ col_key r ≠ k) (pendingRows c) →
     result.1 = released InvalidId c
     ∧ callbacks result.2 = [OnSuccessNull]).
Proof.
  cbn zeta.
  destruct (m_query c) as [q|] eqn:Hq.
  - destruct (continueFunctionInternal_scan db (Some k) c) as [H1 H2];
      [by eexists|].
    rewrite H1, H2. split.
    + destruct (scan _ _ _ _ _) as [[r rest]|] eqn:Hs; [left | by right].
      apply scan_Some in Hs as (skipped & Hrows & Hlive & Hm).
      cbn in Hm. apply bool_decide_eq_true in Hm.
      by exists skipped, r, rest.
    + intros Hnone. rewrite scan_None; [done|].
      eapply Forall_impl; [exact Hnone|]. intros r [Hr|Hr]; cbn.
      * by rewrite Hr.
      * rewrite bool_decide_eq_false_2 by done. apply andb_false_r.
  - rewrite continueFunctionInternal_released by done. split; [by right|done].
Qed.

(** X2.  A cursor handed to the callback stands on a row that is live in
    its authoritative table, whatever the direction and the target. *)
Lemma delivered_row_is_live db c target c' :
  callbacks (continueFunctionInternal InvalidId db c target).2
  = [OnSuccessCursor c'] →
  ∃ r, r ∈ pendingRows c ∧ rowLive db r = true
       ∧ m_currentId c' = col_id r ∧ m_currentKey c' = Some (col_key r).
Proof.
  destruct (m_query c) as [q|] eqn:Hq.
  - destruct (continueFunctionInternal_scan db target c) as [_ H2];
      [by eexists|].
    rewrite H2.
    destruct (scan _ _ _ _ _) as [[r rest]|] eqn:Hs; [|done].
    intros [= <-]. apply scan_Some in Hs as (skipped & Hrows & Hlive & _).
    exists r. rewrite Hrows. split; [|done].
    apply elem_of_app. right. apply list_elem_of_here.
  - by rewrite continueFunctionInternal_released.
Qed.

(** For [NEXT] and [PREV] a deleted row leaves no mark: the advance goes
    as if the statement had never produced it. *)
Lemma deleted_row_transparent_plain db target d previous r rest :
  isNoDuplicate d = false →
  rowLive db r = false →
  scan db target d previous (r :: rest) = scan db target d previous rest.
Proof.
  intros Hd Hr. cbn [scan]. unfold verdict at 1. rewrite Hr. cbn [negb].
  destruct rest as [|r' rest]; [done|].
  cbn [scan]. unfold verdict. by rewrite Hd.
Qed.

Lemma plain_skips_transparently db c target r rest :
  isNoDuplicate (m_direction c) = false →
  skipsTransparently InvalidId db c target r rest.
Proof.
  intros Hd Hr. unfold skipsTransparently.
  destruct (continueLoop_scan db target c (r :: rest)) as [_ ->].
  destruct (continueLoop_scan db target c rest) as [_ ->].
  by rewrite deleted_row_transparent_plain.
Qed.

(** *** Update and delete through the cursor *)

(** C6.  [update] and [deleteFunction] end with [NOT_ALLOWED_ERR], nothing
    handed to the object store, exactly when the statement is released, or
    the row id is [InvalidId], or the cursor is not a value cursor.
    Otherwise [update] hands the object store a put in [CursorUpdate] mode
    and [deleteFunction] a delete, each on the secondary key value when
    there is one and on the current key otherwise. *)
Theorem mutation_bridge c v :
  (mutationRefused InvalidId c
   ↔ (update InvalidId c v).2 = Rejected NOT_ALLOWED_ERR)
  ∧ (mutationRefused InvalidId c
     ↔ (deleteFunction InvalidId c).2 = Rejected NOT_ALLOWED_ERR)
  ∧ (¬ mutationRefused InvalidId c →
     (update InvalidId c v).2
     = Delegated (StorePut v (writeTarget c) CursorUpdate)
     ∧ (deleteFunction InvalidId c).2
       = Delegated (StoreDelete (writeTarget c))).
Proof.
  unfold mutationRefused, update, deleteFunction, writeTarget.
  destruct (m_query c) as [q|]; cbn [isNull orb];
    [|split_and!; [naive_solver..|intros []; by left]].
  case_bool_decide as Hid; cbn [orb];
    [split_and!; [naive_solver..|intros []; by right; left]|].
  destruct (m_isSerializedScriptValueCursor c); cbn [negb];
    [|split_and!; [naive_solver..|intros []; by right; right]].
  destruct (m_currentIDBKeyValue c); cbn [isNull snd]; naive_solver.
Qed.

Lemma update_cursor c v : (update InvalidId c v).1 = c.
Proof.
  unfold update.
  by destruct (isNull (m_query c) || bool_decide (m_currentId c = InvalidId)
               || negb (m_isSerializedScriptValueCursor c)).
Qed.

Lemma deleteFunction_cursor c : (deleteFunction InvalidId c).1 = c.
Proof.
  unfold deleteFunction.
  by destruct (isNull (m_query c) || bool_decide (m_currentId c = InvalidId)
               || negb (m_isSerializedScriptValueCursor c)).
Qed.

(** C10.  [update] and [deleteFunction] give back the cursor they were
    called on, rejected or delegated: statement, row id, key, value,
    secondary key value and direction are what they were. *)
Theorem mutation_frame c v :
  (update InvalidId c v).1 = c ∧ (deleteFunction InvalidId c).1 = c.
Proof. split; [apply update_cursor | apply deleteFunction_cursor]. Qed.

(** *** Scheduling *)

(** C2, as the code has it.  [continueFunction] sets [NOT_ALLOWED_ERR]
    exactly when the transaction refuses the task, and then nothing is
    scheduled.  A transaction that takes work gets the task appended and no
    error is set, also for a cursor whose statement is released; that task,
    when it runs, leaves the cursor exhausted and calls the callback once,
    with the empty result. *)
Theorem continue_fails_only_when_refused db c txn target :
  ((continueFunction c txn target).2 = Some NOT_ALLOWED_ERR
   ↔ txn_rejects txn = true)
  ∧ (txn_rejects txn = true → (continueFunction c txn target).1 = txn)
  ∧ (txn_rejects txn = false →
     (continueFunction c txn target).2 = None
     ∧ txn_tasks (continueFunction c txn target).1
       = txn_tasks txn ++ [ContinueTask target])
  ∧ (m_query c = None →
     runTask InvalidId db c (ContinueTask target)
     = (released InvalidId c, [Callback OnSuccessNull])).
Proof.
  unfold continueFunction, scheduleTask.
  destruct (txn_rejects txn); cbn; split_and!; try done.
  all: intros Hq; by apply continueFunctionInternal_released.
Qed.

(** *** The position invariant *)

Lemma wellPositioned_landing c q found :
  m_query c = Some q →
  validIds InvalidId q →
  (∀ r rest, found = Some (r, rest) →
     ∃ skipped, stmt_pending q = skipped ++ r :: rest) →
  wellPositioned InvalidId (landing InvalidId c found).
Proof.
  intros Hq Hvalid Hfound. destruct found as [[r rest]|]; cbn [landing].
  - right. eexists. split; [apply positioned_query|].
    destruct (Hfound r rest eq_refl) as [skipped Hrows].
    split; [|done].
    unfold validIds in *. cbn [stmt_row stmt_pending].
    apply Forall_cons in Hvalid as [_ Hvalid].
    rewrite Hrows in Hvalid. by apply Forall_app in Hvalid as [_ Hvalid].
  - by left.
Qed.

Lemma reachable_wellPositioned c :
  reachable InvalidId c → wellPositioned InvalidId c.
Proof.
  induction 1 as [dir q isValue Hvalid|db c target _ IH|c v _ IH|c _ IH].
  - right. by exists q.
  - destruct IH as [(Hq & _)|(q & Hq & Hvalid & _)].
    + rewrite continueFunctionInternal_released by done. by left.
    + destruct (continueFunctionInternal_scan db target c) as [-> _];
        [by eexists|].
      apply (wellPositioned_landing c q); [done..|].
      intros r rest Hs. apply scan_Some in Hs as (skipped & Hrows & _).
      exists skipped. unfold pendingRows in Hrows. by rewrite Hq in Hrows.
  - by rewrite update_cursor.
  - by rewrite deleteFunction_cursor.
Qed.

(** C8.  On every cursor made by the constructor over a statement whose
    rows carry valid ids, and then advanced, updated or deleted through any
    number of times, the row id is [InvalidId] exactly when the current key
    is absent, and both exactly when the cursor holds no statement (it has
    no current position). *)
Theorem position_invariant c :
  reachable InvalidId c →
  (m_currentId c = InvalidId ↔ m_currentKey c = None)
  ∧ (m_currentKey c = None ↔ m_query c = None).
Proof.
  intros Hc. apply reachable_wellPositioned in Hc.
  destruct Hc as [(Hq & Hid & Hkey)|(q & Hq & Hvalid & Hid & Hkey)].
  - by rewrite Hq, Hid, Hkey.
  - rewrite Hq, Hid, Hkey. apply Forall_cons in Hvalid as [Hrow _].
    split; split; done.
Qed.

(** *** Iterating a no-duplicate cursor *)

Lemma deliveredKeys_app (l1 l2 : list (CallbackCall IDBKey)) :
  deliveredKeys (l1 ++ l2) = deliveredKeys l1 ++ deliveredKeys l2.
Proof.
  induction l1 as [|[| |c] l1 IH]; cbn; [done..|]. by rewrite IH.
Qed.

(** An advance that leaves the cursor its statement has consumed a row. *)
Lemma advance_consumes db c target :
  is_Some (m_query (continueFunctionInternal InvalidId db c target).1) →
  (length (pendingRows (continueFunctionInternal InvalidId db c target).1)
   < length (pendingRows c))%nat.
Proof.
  destruct (m_query c) as [q|] eqn:Hq.
  - destruct (continueFunctionInternal_scan db target c) as [-> _];
      [by eexists|].
    destruct (scan _ _ _ _ _) as [[r rest]|] eqn:Hs; cbn [landing].
    + intros _. apply scan_Some in Hs as (skipped & -> & _).
      unfold pendingRows at 1. rewrite positioned_query. cbn [stmt_pending].
      rewrite length_app. cbn [length]. lia.
    + by intros [? [=]].
  - rewrite continueFunctionInternal_released by done. by intros [? [=]].
Qed.

(** More advances than rows left never change what iterating delivers. *)
Lemma iterate_fuel db fuel c :
  (length (pendingRows c) < fuel)%nat →
  iterate InvalidId fuel db c = iterateAll InvalidId db c.
Proof.
  unfold iterateAll.
  assert (∀ n m c, (length (pendingRows c) < n)%nat →
                   (length (pendingRows c) < m)%nat →
                   iterate InvalidId n db c = iterate InvalidId m db c)
    as Hany; [|intros; apply Hany; lia].
  clear fuel c. induction n as [|n IH]; intros [|m] c Hn Hm; try lia.
  cbn [iterate]. pose proof (advance_consumes db c None) as Hlen.
  destruct (continueFunctionInternal InvalidId db c None) as [c' t].
  cbn [fst] in Hlen. destruct (m_query c') as [q|] eqn:Hq; [|done].
  specialize (Hlen (ltac:(by eexists))).
  f_equal. apply IH; lia.
Qed.

(** One advance of a no-duplicate cursor whose group heads are live: it
    finds no row when no group starts in the rows left, and else stops on
    the first row that starts one. *)
Lemma scan_collapse db d previous rows :
  isNoDuplicate d = true →
  headsLive db previous rows = true →
  match scan db None d previous rows with
  | None => collapse previous (col_key <$> rows) = []
  | Some (r, rest) =>
    collapse previous (col_key <$> rows)
    = col_key r :: collapse (Some (col_key r)) (col_key <$> rest)
    ∧ headsLive db (Some (col_key r)) rest = true
    ∧ (length rest < length rows)%nat
  end.
Proof.
  intros Hd. revert previous.
  induction rows as [|r0 rows IH]; intros previous Hheads; [done|].
  cbn [headsLive] in Hheads. apply andb_true_iff in Hheads as [Hhead Hheads].
  specialize (IH _ Hheads).
  cbn [scan fmap list_fmap collapse]. unfold verdict.
  rewrite Hd. cbn [matchesTarget negb andb].
  case_bool_decide as Hdup.
  - destruct (rowLive db r0); cbn [negb];
      (destruct (scan _ _ _ _ _) as [[r rest]|]; [|done]);
      destruct IH as (? & ? & ?); cbn [length]; split_and!; [done..|lia| |done|lia]; done.
  - cbn [orb] in Hhead. rewrite Hhead. cbn [negb length].
    split_and!; [done..|lia].
Qed.

Lemma iterate_no_duplicate db fuel c :
  is_Some (m_query c) →
  isNoDuplicate (m_direction c) = true →
  headsLive db (m_currentKey c) (pendingRows c) = true →
  (length (pendingRows c) < fuel)%nat →
  deliveredKeys (iterate InvalidId fuel db c)
  = Some <$> collapse (m_currentKey c) (col_key <$> pendingRows c).
Proof.
  revert c. induction fuel as [|fuel IH]; intros c Hq Hd Hheads Hfuel; [lia|].
  cbn [iterate].
  destruct (continueFunctionInternal_scan db None c Hq) as [H1 H2].
  destruct (continueFunctionInternal InvalidId db c None) as [c' t].
  cbn [fst snd] in H1, H2. cbn zeta in H1, H2.
  pose proof (scan_collapse db _ _ _ Hd Hheads) as Hscan.
  destruct (scan db None (m_direction c) (m_currentKey c) (pendingRows c))
    as [[r rest]|]; cbn [landing report] in H1, H2; subst c'; rewrite H2.
  - destruct Hscan as (-> & Hheads' & Hlen).
    rewrite positioned_query, deliveredKeys_app. cbn [deliveredKeys app].
    rewrite positioned_key, fmap_cons. f_equal.
    rewrite IH; [done|by eexists|by rewrite positioned_direction|done|].
    unfold pendingRows. rewrite positioned_query. cbn [stmt_pending]. lia.
  - cbn [released m_query deliveredKeys]. by rewrite Hscan.
Qed.

(** When every group of equal adjacent keys among the rows left starts
    with a live row and the database stays as it is, a cursor in a
    no-duplicate direction iterated to the end delivers the keys of the
    rows left with adjacent repetitions collapsed. *)
Theorem no_duplicate_one_per_group db c :
  is_Some (m_query c) →
  isNoDuplicate (m_direction c) = true →
  headsLive db (m_currentKey c) (pendingRows c) = true →
  oneDeliveryPerGroup InvalidId db c.
Proof.
  intros Hq Hd Hheads. unfold oneDeliveryPerGroup, iterateAll.
  apply iterate_no_duplicate; [done..|lia].
Qed.

(** *** The whole iteration *)

Lemma deliveredRows_app (l1 l2 : list (CallbackCall IDBKey)) :
  deliveredRows (l1 ++ l2) = deliveredRows l1 ++ deliveredRows l2.
Proof.
  induction l1 as [|[| |c] l1 IH]; cbn; [done..|]. by rewrite IH.
Qed.

(** One advance without target key finds the first of the accepted rows. *)
Lemma scan_accepted db d previous rows :
  match scan db None d previous rows with
  | None => accepted db d previous rows = []
  | Some (r, rest) =>
    accepted db d previous rows = r :: accepted db d (Some (col_key r)) rest
  end.
Proof.
  revert previous. induction rows as [|r0 rows IH]; intros previous; [done|].
  cbn [scan accepted].
  destruct (verdict db None d previous r0); try apply IH. done.
Qed.

Lemma iterate_accepted db fuel c :
  is_Some (m_query c) →
  (length (pendingRows c) < fuel)%nat →
  deliveredRows (iterate InvalidId fuel db c)
  = rowIdKey <$> accepted db (m_direction c) (m_currentKey c) (pendingRows c).
Proof.
  revert c. induction fuel as [|fuel IH]; intros c Hq Hfuel; [lia|].
  cbn [iterate].
  destruct (continueFunctionInternal_scan db None c Hq) as [H1 H2].
  pose proof (advance_consumes db c None) as Hlen.
  destruct (continueFunctionInternal InvalidId db c None) as [c' t].
  cbn [fst snd] in H1, H2, Hlen. cbn zeta in H1, H2.
  pose proof (scan_accepted db (m_direction c) (m_currentKey c)
                (pendingRows c)) as Hscan.
  destruct (scan db None (m_direction c) (m_currentKey c) (pendingRows c))
    as [[r rest]|]; cbn [landing report] in H1, H2; subst c'; rewrite H2.
  - rewrite Hscan, positioned_query, deliveredRows_app.
    cbn [deliveredRows app]. rewrite positioned_key, positioned_id, fmap_cons.
    f_equal. rewrite positioned_query in Hlen.
    rewrite IH; [|by eexists|specialize (Hlen ltac:(by eexists)); lia].
    by rewrite positioned_direction, positioned_key.
  - cbn [released m_query deliveredRows]. by rewrite Hscan.
Qed.

Lemma accepted_plain db d previous rows :
  isNoDuplicate d = false →
  accepted db d previous rows = List.filter (rowLive db) rows.
Proof.
  intros Hd. revert previous.
  induction rows as [|r rows IH]; intros previous; [done|].
  cbn [accepted List.filter]. unfold verdict.
  rewrite Hd. cbn [matchesTarget negb andb].
  destruct (rowLive db r); cbn [negb]; by rewrite IH.
Qed.

Lemma accepted_no_duplicate db d previous rows :
  isNoDuplicate d = true →
  accepted db d previous rows
  = (List.filter
       (λ pr, rowLive db pr.2 && negb (bool_decide (pr.1 = Some (col_key pr.2))))
       (withPrevious previous rows)).*2.
Proof.
  intros Hd. revert previous.
  induction rows as [|r rows IH]; intros previous; [done|].
  cbn [accepted withPrevious List.filter fst snd]. unfold verdict.
  rewrite Hd. cbn [matchesTarget negb andb].
  destruct (rowLive db r); cbn [negb andb]; [|by rewrite IH].
  case_bool_decide; cbn [negb]; rewrite IH; done.
Qed.

(** X1.  A [NEXT] or [PREV] cursor iterated to the end by advances
    without target key hands the callback every row left in the statement
    that is live in its authoritative table, each once, in the order of
    the statement, and no other row. *)
Theorem plain_iteration_delivers_live_rows db c :
  is_Some (m_query c) →
  isNoDuplicate (m_direction c) = false →
  deliveredRows (iterateAll InvalidId db c)
  = rowIdKey <$> List.filter (rowLive db) (pendingRows c).
Proof.
  intros Hq Hd. unfold iterateAll.
  rewrite iterate_accepted by (done || lia). by rewrite accepted_plain.
Qed.

(** X6.  A [NEXT_NO_DUPLICATE] or [PREV_NO_DUPLICATE] cursor iterated to
    the end by advances without target key hands the callback exactly the
    rows left in the statement that are live and whose key differs from the
    key of the row just before them in the statement (the cursor's current
    key for the first), in the order of the statement.  The row before
    counts whether it was live or not. *)
Theorem no_duplicate_iteration_delivers_live_heads db c :
  is_Some (m_query c) →
  isNoDuplicate (m_direction c) = true →
  deliveredRows (iterateAll InvalidId db c)
  = rowIdKey
    <$> (List.filter
           (λ pr, rowLive db pr.2
                  && negb (bool_decide (pr.1 = Some (col_key pr.2))))
           (withPrevious (m_currentKey c) (pendingRows c))).*2.
Proof.
  intros Hq Hd. unfold iterateAll.
  rewrite iterate_accepted by (done || lia).
  by rewrite accepted_no_duplicate.
Qed.

Lemma iterate_shape db fuel c :
  (length (pendingRows c) < fuel)%nat →
  ∃ cs, iterate InvalidId fuel db c = (OnSuccessCursor <$> cs) ++ [OnSuccessNull]
        ∧ (length cs ≤ length (pendingRows c))%nat.
Proof.
  revert c. induction fuel as [|fuel IH]; intros c Hfuel; [lia|].
  cbn [iterate].
  destruct (m_query c) as [q|] eqn:Hq.
  - destruct (continueFunctionInternal_scan db None c) as [H1 H2];
      [by eexists|].
    pose proof (advance_consumes db c None) as Hlen.
    destruct (continueFunctionInternal InvalidId db c None) as [c' t].
    cbn [fst snd] in H1, H2, Hlen. cbn zeta in H1, H2.
    destruct (scan db None (m_direction c) (m_currentKey c) (pendingRows c))
      as [[r rest]|]; cbn [landing report] in H1, H2; subst c'; rewrite H2.
    + rewrite positioned_query in *.
      specialize (Hlen ltac:(by eexists)).
      destruct (IH (positioned c r rest)) as (cs & -> & Hcs); [lia|].
      exists (positioned c r rest :: cs). split; [done|]. cbn [length]. lia.
    + exists []. split; [done|]. cbn [length]. lia.
  - rewrite continueFunctionInternal_released by done.
    exists []. split; [done|]. cbn [length]. lia.
Qed.

(** X7.  Iterating a cursor to the end calls the callback with the cursor
    at most once per row left in the statement, and then once, last, with
    the empty result; [onError] is never called. *)
Theorem iteration_ends_with_one_empty_result db c :
  ∃ cs,
    iterateAll InvalidId db c = (OnSuccessCursor <$> cs) ++ [OnSuccessNull]
    ∧ (length cs ≤ length (pendingRows c))%nat.
Proof. unfold iterateAll. apply iterate_shape. lia. Qed.

(** *** Deleted rows and targets under [NEXT] and [PREV] *)

Lemma scan_plain_first db target d previous skipped r rest :
  isNoDuplicate d = false →
  Forall (λ r', rowLive db r' && matchesTarget target r' = false) skipped →
  rowLive db r = true →
  matchesTarget target r = true →
  scan db target d previous (skipped ++ r :: rest) = Some (r, rest).
Proof.
  intros Hd Hskipped Hlive Hmatch. revert previous.
  induction Hskipped as [|r' skipped Hr' _ IH]; intros previous; cbn [app scan].
  - assert (verdict db target d previous r = Accept) as ->; [|done].
    apply verdict_Accept. by rewrite Hd.
  - destruct (verdict db target d previous r') eqn:Hv; try apply IH.
    apply verdict_Accept in Hv as (Hl & Hm & _). by rewrite Hl, Hm in Hr'.
Qed.

(** X3.  Under [NEXT] and [PREV] a deleted row next in the statement
    leaves no mark: the advance ends on the same cursor and makes the same
    call on the callback as on the statement without that row, with or
    without target key. *)
Theorem plain_deleted_row_is_transparent db c target q r rest :
  m_query c = Some q →
  stmt_pending q = r :: rest →
  isNoDuplicate (m_direction c) = false →
  rowLive db r = false →
  let without :=
    setQuery c (Some {| stmt_row := stmt_row q; stmt_pending := rest |}) in
  (continueFunctionInternal InvalidId db c target).1
  = (continueFunctionInternal InvalidId db without target).1
  ∧ callbacks (continueFunctionInternal InvalidId db c target).2
    = callbacks (continueFunctionInternal InvalidId db without target).2.
Proof.
  intros Hq Hrows Hd Hr. cbn zeta.
  destruct (continueFunctionInternal_scan db target c) as [-> ->];
    [by eexists|].
  destruct (continueFunctionInternal_scan db target
              (setQuery c (Some {| stmt_row := stmt_row q;
                                   stmt_pending := rest |})))
    as [-> ->]; [by eexists|].
  unfold pendingRows. rewrite Hq, Hrows. cbn [setQuery m_query stmt_pending
    m_direction m_currentKey].
  rewrite deleted_row_transparent_plain by done.
  by destruct (scan _ _ _ _ _) as [[r' rest']|].
Qed.

(** X5.  Under [NEXT] and [PREV] an advance stops on the first row left
    in the statement that is live and matches the target (any live row
    when there is no target), and the callback gets the cursor standing on
    it. *)
Theorem plain_advance_finds_first_live_match db c target skipped r rest :
  is_Some (m_query c) →
  isNoDuplicate (m_direction c) = false →
  pendingRows c = skipped ++ r :: rest →
  Forall (λ r', rowLive db r' && matchesTarget target r' = false) skipped →
  rowLive db r = true →
  matchesTarget target r = true →
  (continueFunctionInternal InvalidId db c target).1 = positioned c r rest
  ∧ callbacks (continueFunctionInternal InvalidId db c target).2
    = [OnSuccessCursor (positioned c r rest)].
Proof.
  intros Hq Hd Hrows Hskipped Hlive Hmatch.
  destruct (continueFunctionInternal_scan db target c Hq) as [-> ->].
  by rewrite Hrows, scan_plain_first.
Qed.

(** *** The trace of an advance *)

Lemma continueLoop_trace db target c rows :
  ∃ fetched,
    rows = fetched ++ pendingRows (continueLoop InvalidId db target c rows).1
    ∧ existsQueries (continueLoop InvalidId db target c rows).2
      = rowQuery db <$> fetched
    ∧ querySteps (continueLoop InvalidId db target c rows).2
      = replicate (length fetched) SQLResultRow
        ++ (if isNull (m_query (continueLoop InvalidId db target c rows).1)
            then [SQLResultDone] else []).
Proof.
  revert c. induction rows as [|r rest IH]; intros c.
  - by exists [].
  - rewrite continueLoop_cons.
    destruct (verdict db target (m_direction c) (m_currentKey c) r);
      try (destruct (IH (positioned c r rest)) as (fetched & H1 & H2 & H3);
           exists (r :: fetched);
           cbn [emit fst snd existsQueries querySteps];
           rewrite H2, H3; split; [by rewrite H1 at 1|done]).
    by exists [r].
Qed.

(** X8.  An advance only moves the statement forward: the rows it fetches
    are the first of the rows left, and the cursor keeps the others.  It
    steps the statement once per fetched row, and once more without result
    when it ends exhausted; it asks the database once per fetched row, in
    that order, about the row's id in the row's authoritative table. *)
Theorem advance_fetches_a_prefix db c target :
  is_Some (m_query c) →
  ∃ fetched,
    pendingRows c
    = fetched ++ pendingRows (continueFunctionInternal InvalidId db c target).1
    ∧ existsQueries (continueFunctionInternal InvalidId db c target).2
      = rowQuery db <$> fetched
    ∧ querySteps (continueFunctionInternal InvalidId db c target).2
      = replicate (length fetched) SQLResultRow
        ++ (if isNull
                 (m_query (continueFunctionInternal InvalidId db c target).1)
            then [SQLResultDone] else []).
Proof.
  intros Hq. rewrite continueFunctionInternal_pending by done.
  apply continueLoop_trace.
Qed.

(** X9.  An advance never changes the direction of the cursor nor whether
    it is a value cursor, however it ends. *)
Theorem advance_keeps_direction_and_kind db c target :
  direction (continueFunctionInternal InvalidId db c target).1 = direction c
  ∧ m_isSerializedScriptValueCursor
      (continueFunctionInternal InvalidId db c target).1
    = m_isSerializedScriptValueCursor c.
Proof.
  destruct (m_query c) as [q|] eqn:Hq.
  - destruct (continueFunctionInternal_scan db target c) as [-> _];
      [by eexists|].
    by destruct (scan _ _ _ _ _) as [[r rest]|].
  - by rewrite continueFunctionInternal_released.
Qed.

(** *** The accessors *)

Lemma built_inSync c : built InvalidId c → inSync InvalidId c.
Proof.
  induction 1 as [dir q isValue|db c target _ IH|c v _ IH|c _ IH].
  - unfold inSync, create, loadCurrentRow; cbn. by destruct isValue.
  - destruct (m_query c) as [q|] eqn:Hq.
    + destruct (continueFunctionInternal_scan db target c) as [-> _];
        [by eexists|].
      destruct (scan _ _ _ _ _) as [[r rest]|]; cbn [landing]; [|done].
      unfold inSync in *. rewrite Hq in IH. destruct IH as (_ & _ & Hv & _).
      unfold positioned, loadCurrentRow, setQuery; cbn.
      rewrite Hv. by destruct (m_isSerializedScriptValueCursor c).
    + by rewrite continueFunctionInternal_released.
  - by rewrite update_cursor.
  - by rewrite deleteFunction_cursor.
Qed.

(** X10.  On every cursor made by the constructor and then advanced,
    updated or deleted through, [key] and [value] show the row the
    statement stands on: its key; its payload for a value cursor, its
    secondary key value otherwise.  Without statement [key] is null and
    [value] is empty.  A cursor that is no value cursor never holds a
    payload. *)
Theorem accessors_show_current_row c :
  built InvalidId c →
  match m_query c with
  | Some q =>
    key c = Some (col_key (stmt_row q))
    ∧ value c
      = (if m_isSerializedScriptValueCursor c
         then inl (Some (col_value (stmt_row q)))
         else inr (col_idbKeyValue (stmt_row q)))
  | None =>
    key c = None
    ∧ value c
      = (if m_isSerializedScriptValueCursor c then inl None else inr None)
  end
  ∧ (m_isSerializedScriptValueCursor c = false →
     m_currentSerializedScriptValue c = None).
Proof.
  intros Hc. apply built_inSync in Hc. unfold inSync, key, value in *.
  destruct (m_query c) as [q|]; destruct Hc as (_ & -> & -> & ->);
    by destruct (m_isSerializedScriptValueCursor c).
Qed.

(** *** Advancing, then writing through the cursor *)

(** X11.  After an advance of a value cursor that handed the cursor to the
    callback, over rows with valid ids, [update] and [deleteFunction] go to
    the object store with the key of the record behind the row delivered:
    the row's secondary key value when it has one, its own key
    otherwise. *)
Theorem mutation_after_advance_targets_delivered_row db c target c' v :
  m_isSerializedScriptValueCursor c = true →
  Forall (λ r, col_id r ≠ InvalidId) (pendingRows c) →
  callbacks (continueFunctionInternal InvalidId db c target).2
  = [OnSuccessCursor c'] →
  ∃ r, r ∈ pendingRows c
       ∧ rowLive db r = true
       ∧ m_currentId c' = col_id r
       ∧ (update InvalidId c' v).2
         = Delegated
             (StorePut v (Some (default (col_key r) (col_idbKeyValue r)))
                CursorUpdate)
       ∧ (deleteFunction InvalidId c').2
         = Delegated
             (StoreDelete (Some (default (col_key r) (col_idbKeyValue r)))).
Proof.
  intros Hvalue Hids.
  destruct (m_query c) as [q|] eqn:Hq;
    [|by rewrite continueFunctionInternal_released].
  destruct (continueFunctionInternal_scan db target c) as [_ ->];
    [by eexists|].
  destruct (scan _ _ _ _ _) as [[r rest]|] eqn:Hs; [|done].
  intros [= <-]. apply scan_Some in Hs as (skipped & Hrows & Hlive & _).
  assert (r ∈ pendingRows c) as Hin.
  { rewrite Hrows. apply elem_of_app. right. apply list_elem_of_here. }
  exists r. split_and!; [done..| |].
  all: unfold update, deleteFunction, positioned, loadCurrentRow, setQuery;
    cbn; rewrite Hvalue; cbn;
    rewrite bool_decide_eq_false_2
      by (eapply (proj1 (Forall_forall _ _) Hids); exact Hin);
    by destruct (col_idbKeyValue r).
Qed.

(** X12.  After an advance that gave the callback the empty result,
    [update] and [deleteFunction] are refused with [NOT_ALLOWED_ERR] and
    the object store is not called. *)
Theorem mutation_after_exhaustion_is_refused db c target v :
  callbacks (continueFunctionInternal InvalidId db c target).2
  = [OnSuccessNull] →
  (update InvalidId (continueFunctionInternal InvalidId db c target).1 v).2
  = Rejected NOT_ALLOWED_ERR
  ∧ (deleteFunction InvalidId
       (continueFunctionInternal InvalidId db c target).1).2
    = Rejected NOT_ALLOWED_ERR.
Proof.
  destruct (m_query c) as [q|] eqn:Hq;
    [|by rewrite continueFunctionInternal_released].
  destruct (continueFunctionInternal_scan db target c) as [-> ->];
    [by eexists|].
  by destruct (scan _ _ _ _ _) as [[r rest]|].
Qed.

(** *** A queue of advance tasks *)

Lemma callbacks_app (t1 t2 : list (Effect IDBKey)) :
  callbacks (t1 ++ t2) = callbacks t1 ++ callbacks t2.
Proof.
  induction t1 as [|[| |call] t1 IH]; cbn; [done..|]. by rewrite IH.
Qed.

Lemma runQueue_released c work :
  m_query c = None →
  callbacks (runQueue InvalidId c work).2
  = replicate (length work) OnSuccessNull
  ∧ m_query (runQueue InvalidId c work).1 = None.
Proof.
  revert c. induction work as [|[db [target]] work IH]; intros c Hq; [done|].
  cbn [runQueue runTask].
  rewrite continueFunctionInternal_released by done.
  destruct (IH (released InvalidId c) eq_refl) as [IH1 IH2].
  destruct (runQueue InvalidId (released InvalidId c) work) as [c' t'].
  cbn [fst snd] in *. cbn [app callbacks length replicate]. by rewrite IH1.
Qed.

(** X13.  A queue of advance tasks run in order on a cursor calls the
    callback once per task, [onError] never; the tasks that get the cursor
    come first, and once a task got the empty result so does every task
    after it, whatever the database holds by then. *)
Theorem queue_calls_back_once_per_task c work :
  ∃ cs n,
    callbacks (runQueue InvalidId c work).2
    = (OnSuccessCursor <$> cs) ++ replicate n OnSuccessNull
    ∧ (length cs + n = length work)%nat.
Proof.
  revert c. induction work as [|[db [target]] work IH]; intros c.
  - by exists [], 0%nat.
  - cbn [runQueue runTask].
    destruct (m_query c) as [q|] eqn:Hq.
    + destruct (continueFunctionInternal_scan db target c) as [H1 H2];
        [by eexists|].
      destruct (continueFunctionInternal InvalidId db c target) as [c1 t1].
      cbn [fst snd] in H1, H2. cbn zeta in H1, H2.
      destruct (scan _ _ _ _ _) as [[r rest]|]; cbn [landing report] in H1, H2.
      * destruct (IH c1) as (cs & n & Hcalls & Hlen).
        destruct (runQueue InvalidId c1 work) as [c2 t2]. cbn [snd] in *.
        exists (positioned c r rest :: cs), n.
        rewrite callbacks_app, H2, Hcalls. cbn [length]. split; [done|lia].
      * destruct (runQueue_released c1 work) as [Hcalls _]; [by subst c1|].
        destruct (runQueue InvalidId c1 work) as [c2 t2]. cbn [snd] in *.
        exists [], (S (length work)).
        rewrite callbacks_app, H2, Hcalls. done.
    + destruct (runQueue_released c ((db, ContinueTask target) :: work) Hq)
        as [Hcalls _].
      exists [], (S (length work)). split; [exact Hcalls|done].
Qed.

(** *** What the advance reads of the database *)

Lemma continueLoop_ext db db' target c rows :
  Forall (λ r, rowLive db r = rowLive db' r) rows →
  continueLoop InvalidId db target c rows
  = continueLoop InvalidId db' target c rows.
Proof.
  intros Hrows. revert c.
  induction Hrows as [|r rows Hr _ IH]; intros c; [done|].
  rewrite !continueLoop_cons. unfold verdict. rewrite Hr.
  do 2 f_equal.
  by destruct (negb (rowLive db' r)), (negb (matchesTarget target r)),
    (isNoDuplicate (m_direction c)
     && bool_decide (m_currentKey c = Some (col_key r))); rewrite ?IH.
Qed.

(** X14.  An advance reads of the database only the table that is
    authoritative for the rows of its statement: over index rows two
    databases with the same [IndexData] give the same result and the same
    trace, whatever [ObjectStoreData] holds, and likewise with the tables
    exchanged over object-store rows. *)
Theorem advance_reads_only_the_rows_table db db' c target table :
  Forall (λ r, authoritativeTable r = table) (pendingRows c) →
  tableIds db table = tableIds db' table →
  continueFunctionInternal InvalidId db c target
  = continueFunctionInternal InvalidId db' c target.
Proof.
  intros Hrows Htable.
  destruct (m_query c) as [q|] eqn:Hq;
    [|by rewrite !continueFunctionInternal_released].
  rewrite !continueFunctionInternal_pending by (by eexists).
  apply continueLoop_ext.
  eapply Forall_impl; [exact Hrows|].
  intros r Hr. unfold rowLive. by rewrite Hr, Htable.
Qed.

(** *** Iterating while the database changes *)

Lemma existsQueries_app (t1 t2 : list (Effect IDBKey)) :
  existsQueries (t1 ++ t2) = existsQueries t1 ++ existsQueries t2.
Proof.
  induction t1 as [|[| |call] t1 IH]; cbn; [done..| |done]. by rewrite IH.
Qed.

Lemma runQueue_cons c db task work :
  (runQueue InvalidId c ((db, task) :: work)).2
  = (runTask InvalidId db c task).2
    ++ (runQueue InvalidId (runTask InvalidId db c task).1 work).2.
Proof.
  cbn [runQueue]. destruct (runTask InvalidId db c task) as [c1 t1].
  cbn [fst snd]. by destruct (runQueue InvalidId c1 work) as [c2 t2].
Qed.

Lemma runQueue_released_trace c work :
  m_query c = None →
  existsQueries (runQueue InvalidId c work).2 = []
  ∧ deliveredRows (callbacks (runQueue InvalidId c work).2) = [].
Proof.
  revert c. induction work as [|[db [target]] work IH]; intros c Hq; [done|].
  rewrite runQueue_cons. cbn [runTask].
  rewrite continueFunctionInternal_released by done. cbn [fst snd].
  destruct (IH (released InvalidId c) eq_refl) as [IH1 IH2].
  by rewrite existsQueries_app, callbacks_app, deliveredRows_app, IH1, IH2.
Qed.

(** The trace of a task followed by the tasks after it, against the log. *)
Lemma continueLoop_log db dbs c rows :
  existsQueries
    ((continueLoop InvalidId db None c rows).2
     ++ (runQueue InvalidId (continueLoop InvalidId db None c rows).1
           (advances dbs)).2)
  = logQuery <$> fetchLog (m_direction c) (m_currentKey c) rows (db :: dbs)
  ∧ deliveredRows
      (callbacks
         ((continueLoop InvalidId db None c rows).2
          ++ (runQueue InvalidId (continueLoop InvalidId db None c rows).1
                (advances dbs)).2))
    = rowIdKey
      <$> deliveredOf
            (fetchLog (m_direction c) (m_currentKey c) rows (db :: dbs)).
Proof.
  revert c db dbs. induction rows as [|r rest IH]; intros c db dbs.
  - cbn [continueLoop emit fst snd fetchLog].
    destruct (runQueue_released_trace (released InvalidId c) (advances dbs)
                eq_refl) as [H1 H2].
    by rewrite existsQueries_app, callbacks_app, deliveredRows_app, H1, H2.
  - rewrite continueLoop_cons. cbn [fetchLog].
    destruct (verdict db None (m_direction c) (m_currentKey c) r) eqn:Hv;
      cbn [emit fst snd app existsQueries callbacks deliveredRows fmap
           list_fmap deliveredOf];
      try (destruct (IH (positioned c r rest) db dbs) as [H1 H2];
           rewrite positioned_direction, positioned_key in H1, H2;
           by rewrite H1, H2).
    rewrite positioned_id, positioned_key.
    destruct dbs as [|db1 dbs]; [by destruct rest|].
    cbn [advances fmap list_fmap]. rewrite runQueue_cons. cbn [runTask].
    rewrite continueFunctionInternal_positioned.
    destruct (IH (positioned c r rest) db1 dbs) as [H1 H2].
    rewrite positioned_direction, positioned_key in H1, H2.
    unfold advances in H1, H2. rewrite H1, H2. done.
Qed.

Lemma runQueue_log c dbs :
  is_Some (m_query c) →
  existsQueries (runQueue InvalidId c (advances dbs)).2
  = logQuery <$> fetchLog (m_direction c) (m_currentKey c) (pendingRows c) dbs
  ∧ deliveredRows (callbacks (runQueue InvalidId c (advances dbs)).2)
    = rowIdKey
      <$> deliveredOf
            (fetchLog (m_direction c) (m_currentKey c) (pendingRows c) dbs).
Proof.
  intros Hq. destruct dbs as [|db dbs].
  - by destruct (pendingRows c).
  - cbn [advances fmap list_fmap]. rewrite runQueue_cons. cbn [runTask].
    rewrite continueFunctionInternal_pending by done.
    apply continueLoop_log.
Qed.

Lemma deliveredOf_sublist d previous rows dbs :
  sublist (deliveredOf (fetchLog d previous rows dbs)) rows.
Proof.
  revert previous dbs. induction rows as [|r rest IH]; intros previous dbs.
  - constructor.
  - destruct dbs as [|db later]; [apply sublist_nil_l|].
    cbn [fetchLog]. destruct (verdict db None d previous r);
      cbn [deliveredOf]; by constructor.
Qed.

(** The rows of a run after its first are never stopped on. *)
Lemma fetchLog_run d k run after dbs :
  isNoDuplicate d = true →
  Forall (λ r, col_key r = k) run →
  deliveredOf (fetchLog d (Some k) (run ++ after) dbs)
  = deliveredOf (fetchLog d (Some k) after dbs).
Proof.
  intros Hd Hrun. induction Hrun as [|r run Hr _ IH]; [done|].
  destruct dbs as [|db later]; [by destruct after|].
  cbn [app fetchLog].
  destruct (verdict db None d (Some k) r) eqn:Hv;
    cbn [deliveredOf]; rewrite ?Hr; try exact IH.
  apply verdict_Accept in Hv as (_ & _ & Hne). by destruct (Hne Hd); rewrite Hr.
Qed.

Lemma fetchLog_group d previous before h run after dbs e :
  isNoDuplicate d = true →
  Forall (λ r, col_key r = col_key h) run →
  lastKey previous before ≠ Some (col_key h) →
  fetchLog d previous (before ++ h :: run ++ after) dbs !! length before
  = Some e →
  e.1.2 = true →
  ∃ rows1 rows2,
    deliveredOf (fetchLog d previous (before ++ h :: run ++ after) dbs)
    = rows1 ++ h :: rows2
    ∧ sublist rows1 before ∧ sublist rows2 after.
Proof.
  intros Hd Hrun. revert previous dbs.
  induction before as [|b before IH]; intros previous dbs Hprev Hlog Hlive.
  - destruct dbs as [|db later]; [done|].
    cbn [app length fetchLog] in *. cbn [lastKey] in Hprev.
    assert (rowLive db h = true) as Hh.
    { destruct (verdict db None d previous h); by injection Hlog as <-. }
    assert (verdict db None d previous h = Accept) as ->
      by (apply verdict_Accept; done).
    cbn [deliveredOf]. rewrite fetchLog_run by done.
    exists [], (deliveredOf (fetchLog d (Some (col_key h)) after later)).
    split_and!; [done|constructor|apply deliveredOf_sublist].
  - destruct dbs as [|db later]; [done|].
    cbn [app length fetchLog] in *. cbn [lastKey] in Hprev.
    destruct (verdict db None d previous b); cbn [deliveredOf];
      cbn [lookup list_lookup] in Hlog;
      edestruct IH as (rows1 & rows2 & -> & H1 & H2); try done;
      try (by exists rows1, rows2; split_and!; [done|constructor|done]).
    exists (b :: rows1), rows2. split_and!; [done|by constructor|done].
Qed.

(** The log goes through the rows in order, one entry per row, as far as
    the tasks get. *)
Lemma fetchLog_rows d previous rows dbs :
  (λ e, e.1.1) <$> fetchLog d previous rows dbs
  = take (length (fetchLog d previous rows dbs)) rows.
Proof.
  revert previous dbs. induction rows as [|r rest IH]; intros previous dbs.
  - by destruct dbs.
  - destruct dbs as [|db later]; [done|].
    cbn [fetchLog]. destruct (verdict db None d previous r);
      cbn [fmap list_fmap length take fst]; by rewrite IH.
Qed.

(** The point queries of a queue of advances are about the rows left, in
    order: the query numbered [i] is the one made for the row numbered
    [i], on its id in its authoritative table. *)
Lemma queue_asks_rows_in_order c dbs :
  is_Some (m_query c) →
  (λ q, (q.1.1, q.1.2)) <$> existsQueries (runQueue InvalidId c (advances dbs)).2
  = (λ r, (authoritativeTable r, col_id r))
    <$> take (length (existsQueries (runQueue InvalidId c (advances dbs)).2))
          (pendingRows c).
Proof.
  intros Hq. destruct (runQueue_log c dbs Hq) as [-> _].
  rewrite length_fmap, <- fetchLog_rows, <- !list_fmap_compose. done.
Qed.

Lemma sublist_rowIdKey (l1 l2 : list (Row IDBKey)) :
  sublist l1 l2 → sublist (rowIdKey <$> l1) (rowIdKey <$> l2).
Proof. induction 1; cbn; by constructor. Qed.

(** C4, as the code has it.  A cursor in a no-duplicate direction is
    advanced without target key by any number of tasks, the database being
    in any state when each of them runs.  Take a run of rows of equal key
    among the rows left, beginning a group: the row before it (the
    cursor's position, when it is first) has another key.  If the first
    row of the run was live when it was fetched (the point query made for
    it, which by [queue_asks_rows_in_order] is the one numbered like the
    row, found it), then the callbacks that
    got the cursor are those on rows before the run, then one callback on
    the first row of the run, then those on rows after the run: exactly
    one falls in the run, whatever its length and whether its other rows
    are live. *)
Theorem no_duplicate_one_callback_per_run c dbs before h run after :
  is_Some (m_query c) →
  isNoDuplicate (m_direction c) = true →
  pendingRows c = before ++ h :: run ++ after →
  Forall (λ r, col_key r = col_key h) run →
  lastKey (m_currentKey c) before ≠ Some (col_key h) →
  existsQueries (runQueue InvalidId c (advances dbs)).2 !! length before
  = Some (authoritativeTable h, col_id h, true) →
  ∃ delivered1 delivered2,
    deliveredRows (callbacks (runQueue InvalidId c (advances dbs)).2)
    = delivered1 ++ rowIdKey h :: delivered2
    ∧ sublist delivered1 (rowIdKey <$> before)
    ∧ sublist delivered2 (rowIdKey <$> after).
Proof.
  intros Hq Hd Hrows Hrun Hprev Hfound.
  destruct (runQueue_log c dbs Hq) as [Hqueries ->].
  rewrite Hqueries, Hrows in Hfound. rewrite Hrows.
  apply list_lookup_fmap_Some in Hfound as (e & He & Hlog).
  destruct (fetchLog_group _ _ _ _ _ _ _ _ Hd Hrun Hprev Hlog)
    as (rows1 & rows2 & -> & H1 & H2).
  { by injection He. }
  exists (rowIdKey <$> rows1), (rowIdKey <$> rows2).
  rewrite fmap_app, fmap_cons.
  split_and!; [done|by apply sublist_rowIdKey..].
Qed.

End Properties.

(** ** The properties on the sample data *)

Lemma continue_filters_in_order_witness :
  m_query (Sample.cursor NEXT) = Some Sample.statement
  ∧ stmt_pending Sample.statement
    = Sample.rowB1 :: [Sample.rowB2; Sample.rowC]
  ∧ continueFunctionInternal 0 Sample.allLive (Sample.cursor NEXT) None
    = (positioned (Sample.cursor NEXT) Sample.rowB1
         [Sample.rowB2; Sample.rowC],
       [QueryStep SQLResultRow;
        ExistsQuery IndexData 2 true;
        Callback
          (OnSuccessCursor
             (positioned (Sample.cursor NEXT) Sample.rowB1
                [Sample.rowB2; Sample.rowC]))]).
Proof.
  split; [reflexivity|]. split; [reflexivity|].
  apply (continue_filters_in_order 0 Sample.allLive (Sample.cursor NEXT) None
           Sample.statement Sample.rowB1 [Sample.rowB2; Sample.rowC]
           eq_refl eq_refl);
    vm_compute; reflexivity.
Defined.


Lemma mutation_bridge_witness :
  ¬ mutationRefused 0 (Sample.cursor NEXT)
  ∧ (update 0 (Sample.cursor NEXT) "v").2
    = Delegated (StorePut "v" (Some "p1"%string) CursorUpdate).
Proof.
  assert (¬ mutationRefused 0 (Sample.cursor NEXT)) as Hok.
  { intros [H|[H|H]]; vm_compute in H; discriminate H. }
  split; [exact Hok|].
  apply (mutation_bridge 0 (Sample.cursor NEXT) "v"). exact Hok.
Defined.

(** The sentence on exhausted cursors fails on a cursor advanced past its
    last row under a transaction that takes work: no error is set, the
    task is queued, and the task calls the callback. *)
Lemma continue_on_exhausted_cursor_is_scheduled :
  ¬ continueRejectsExhausted Sample.exhausted Sample.openTxn None
  ∧ continueFunction Sample.exhausted Sample.openTxn None
    = ({| txn_rejects := false; txn_tasks := [ContinueTask None] |}, None)
  ∧ callbacks
      (runTask 0 Sample.allLive Sample.exhausted (ContinueTask None)).2
    = [OnSuccessNull].
Proof.
  split; [|split; reflexivity].
  intros Hclaim. destruct (Hclaim eq_refl) as [Hec _].
  vm_compute in Hec. discriminate Hec.
Qed.

Lemma continue_fails_only_when_refused_witness :
  txn_rejects Sample.finishedTxn = true
  ∧ continueFunction (Sample.cursor NEXT) Sample.finishedTxn None
    = (Sample.finishedTxn, Some NOT_ALLOWED_ERR)
  ∧ m_query Sample.exhausted = None
  ∧ runTask 0 Sample.allLive Sample.exhausted (ContinueTask None)
    = (Sample.exhausted, [Callback OnSuccessNull]).
Proof.
  pose proof (continue_fails_only_when_refused 0 Sample.allLive
                (Sample.cursor NEXT) Sample.finishedTxn None)
    as (Hec & Htxn & _ & _).
  pose proof (continue_fails_only_when_refused 0 Sample.allLive
                Sample.exhausted Sample.openTxn None)
    as (_ & _ & _ & Hrun).
  split; [reflexivity|]. split.
  - apply injective_projections; [exact (Htxn eq_refl)|].
    exact (proj2 Hec eq_refl).
  - split; [reflexivity|]. exact (Hrun eq_refl).
Defined.

Lemma position_invariant_witness :
  reachable 0
    (continueFunctionInternal 0 Sample.allLive (Sample.cursor NEXT) None).1
  ∧ (m_currentKey
       (continueFunctionInternal 0 Sample.allLive (Sample.cursor NEXT) None).1
     = None
     ↔ m_query
         (continueFunctionInternal 0 Sample.allLive (Sample.cursor NEXT)
            None).1
       = None).
Proof.
  assert (reachable 0
            (continueFunctionInternal 0 Sample.allLive (Sample.cursor NEXT)
               None).1) as Hreach.
  { apply reachable_continue, reachable_create.
    repeat constructor; discriminate. }
  split; [exact Hreach|].
  apply (position_invariant 0 _ Hreach).
Defined.

(** Index entries A, B, B, C with both B entries deleted: the group of B
    rows gets no callback at all. *)
Lemma deleted_group_is_not_delivered :
  isNoDuplicate (m_direction (Sample.cursor NEXT_NO_DUPLICATE)) = true
  ∧ ¬ oneDeliveryPerGroup 0 Sample.bothBDeleted
        (Sample.cursor NEXT_NO_DUPLICATE)
  ∧ deliveredKeys
      (iterateAll 0 Sample.bothBDeleted (Sample.cursor NEXT_NO_DUPLICATE))
    = [Some "C"%string].
Proof.
  split; [reflexivity|]. split; [|vm_compute; reflexivity].
  intros Hclaim. vm_compute in Hclaim. discriminate Hclaim.
Qed.

Lemma no_duplicate_one_per_group_witness :
  is_Some (m_query (Sample.cursor NEXT_NO_DUPLICATE))
  ∧ isNoDuplicate (m_direction (Sample.cursor NEXT_NO_DUPLICATE)) = true
  ∧ headsLive Sample.allLive
      (m_currentKey (Sample.cursor NEXT_NO_DUPLICATE))
      (pendingRows (Sample.cursor NEXT_NO_DUPLICATE)) = true
  ∧ oneDeliveryPerGroup 0 Sample.allLive (Sample.cursor NEXT_NO_DUPLICATE).
Proof.
  assert (is_Some (m_query (Sample.cursor NEXT_NO_DUPLICATE))) as Hq
    by (eexists; reflexivity).
  assert (headsLive Sample.allLive
            (m_currentKey (Sample.cursor NEXT_NO_DUPLICATE))
            (pendingRows (Sample.cursor NEXT_NO_DUPLICATE)) = true) as Hheads
    by (vm_compute; reflexivity).
  split; [exact Hq|]. split; [reflexivity|]. split; [exact Hheads|].
  exact (no_duplicate_one_per_group 0 Sample.allLive
           (Sample.cursor NEXT_NO_DUPLICATE) Hq eq_refl Hheads).
Defined.

(** C5.  Index entries A, B, B, C, the first B entry deleted, a
    [NEXT_NO_DUPLICATE] cursor standing on A.  The deleted entry is not
    skipped transparently: with it in the statement the advance passes the
    live B entry and stops on C, and iterating delivers C alone; without it
    the advance stops on the live B entry.  Under [NEXT] the same deletion
    leaves B, C. *)
Theorem deleted_row_hides_live_duplicate :
  rowLive Sample.firstBDeleted Sample.rowB1 = false
  ∧ rowLive Sample.firstBDeleted Sample.rowB2 = true
  ∧ ¬ skipsTransparently 0 Sample.firstBDeleted
        (Sample.cursor NEXT_NO_DUPLICATE) None
        Sample.rowB1 [Sample.rowB2; Sample.rowC]
  ∧ deliveredKeys
      (callbacks
         (continueFunctionInternal 0 Sample.firstBDeleted
            (Sample.cursor NEXT_NO_DUPLICATE) None).2)
    = [Some "C"%string]
  ∧ deliveredKeys
      (callbacks
         (continueFunctionInternal 0 Sample.firstBDeleted
            (create 0 NEXT_NO_DUPLICATE Sample.statementWithoutB1 true)
            None).2)
    = [Some "B"%string]
  ∧ deliveredKeys
      (iterateAll 0 Sample.firstBDeleted (Sample.cursor NEXT_NO_DUPLICATE))
    = [Some "C"%string]
  ∧ deliveredKeys (iterateAll 0 Sample.firstBDeleted (Sample.cursor NEXT))
    = [Some "B"%string; Some "C"%string].
Proof.
  split_and!; try (vm_compute; reflexivity).
  intros Hclaim. specialize (Hclaim ltac:(vm_compute; reflexivity)).
  vm_compute in Hclaim. discriminate Hclaim.
Qed.

(** C7.  The same entries and deletion, the [NEXT_NO_DUPLICATE] cursor on
    A asked to continue to B: a live entry with key B is left in the
    statement, and the advance ends exhausted, the callback getting the
    empty result.  Under [NEXT] it stops on that entry. *)
Theorem continue_to_target_misses_live_row :
  m_currentKey (Sample.cursor NEXT_NO_DUPLICATE) = Some "A"%string
  ∧ Sample.rowB2 ∈ pendingRows (Sample.cursor NEXT_NO_DUPLICATE)
  ∧ rowLive Sample.firstBDeleted Sample.rowB2 = true
  ∧ col_key Sample.rowB2 = "B"%string
  ∧ m_query
      (continueFunctionInternal 0 Sample.firstBDeleted
         (Sample.cursor NEXT_NO_DUPLICATE) (Some "B"%string)).1
    = None
  ∧ callbacks
      (continueFunctionInternal 0 Sample.firstBDeleted
         (Sample.cursor NEXT_NO_DUPLICATE) (Some "B"%string)).2
    = [OnSuccessNull]
  ∧ m_currentId
      (continueFunctionInternal 0 Sample.firstBDeleted
         (Sample.cursor NEXT) (Some "B"%string)).1
    = 3.
Proof.
  split_and!; try (vm_compute; reflexivity).
  apply list_elem_of_further, list_elem_of_here.
Qed.

(** The scenario of the specification: records A, B, C, of which B is
    deleted before the first advance reaches it, deliver A (on opening)
    and then C, in every direction.  A cursor on an object store asks
    [ObjectStoreData], not [IndexData]. *)
Example deleted_record_is_skipped (dir : Direction) :
  let advanced :=
    continueFunctionInternal 0 Sample.recordBDeleted
      (create 0 dir Sample.storeStatement true) None in
  advanced.2
  = [QueryStep SQLResultRow; ExistsQuery ObjectStoreData 11 false;
     QueryStep SQLResultRow; ExistsQuery ObjectStoreData 12 true;
     Callback (OnSuccessCursor advanced.1)]
  ∧ key advanced.1 = Some "C"%string
  ∧ value advanced.1 = inl (Some "C"%string)
  ∧ (deleteFunction 0 advanced.1).2
    = Delegated (StoreDelete (Some "C"%string)).
Proof. destruct dir; vm_compute; repeat split. Qed.

(** A key cursor on the index ([openKeyCursor]) is no value cursor:
    [update] and [deleteFunction] are refused on it. *)
Example key_cursor_refuses_mutation :
  let c := create 0 NEXT Sample.statement false in
  value c = inr (Some "p1"%string)
  ∧ (update 0 c "v").2 = Rejected NOT_ALLOWED_ERR
  ∧ (deleteFunction 0 c).2 = Rejected NOT_ALLOWED_ERR.
Proof. vm_compute. repeat split. Qed.

(** ** The further properties on the sample data *)

Lemma plain_iteration_delivers_live_rows_witness :
  is_Some (m_query (Sample.cursor NEXT))
  ∧ isNoDuplicate (m_direction (Sample.cursor NEXT)) = false
  ∧ deliveredRows (iterateAll 0 Sample.firstBDeleted (Sample.cursor NEXT))
    = rowIdKey
      <$> List.filter (rowLive Sample.firstBDeleted)
            (pendingRows (Sample.cursor NEXT)).
Proof.
  assert (is_Some (m_query (Sample.cursor NEXT))) as Hq
    by (eexists; reflexivity).
  split; [exact Hq|]. split; [reflexivity|].
  exact (plain_iteration_delivers_live_rows 0 Sample.firstBDeleted
           (Sample.cursor NEXT) Hq eq_refl).
Defined.

Lemma delivered_row_is_live_witness :
  callbacks
    (continueFunctionInternal 0 Sample.firstBDeleted (Sample.cursor PREV)
       None).2
  = [OnSuccessCursor
       (positioned (Sample.cursor PREV) Sample.rowB2 [Sample.rowC])]
  ∧ ∃ r, r ∈ pendingRows (Sample.cursor PREV)
         ∧ rowLive Sample.firstBDeleted r = true
         ∧ m_currentId
             (positioned (Sample.cursor PREV) Sample.rowB2 [Sample.rowC])
           = col_id r
         ∧ m_currentKey
             (positioned (Sample.cursor PREV) Sample.rowB2 [Sample.rowC])
           = Some (col_key r).
Proof.
  assert (callbacks
            (continueFunctionInternal 0 Sample.firstBDeleted
               (Sample.cursor PREV) None).2
          = [OnSuccessCursor
               (positioned (Sample.cursor PREV) Sample.rowB2 [Sample.rowC])])
    as Hcall by (vm_compute; reflexivity).
  split; [exact Hcall|].
  exact (delivered_row_is_live 0 Sample.firstBDeleted (Sample.cursor PREV)
           None _ Hcall).
Defined.

Lemma plain_deleted_row_is_transparent_witness :
  m_query (Sample.cursor NEXT) = Some Sample.statement
  ∧ rowLive Sample.firstBDeleted Sample.rowB1 = false
  ∧ callbacks
      (continueFunctionInternal 0 Sample.firstBDeleted (Sample.cursor NEXT)
         (Some "C"%string)).2
    = callbacks
        (continueFunctionInternal 0 Sample.firstBDeleted
           (setQuery (Sample.cursor NEXT) (Some Sample.statementWithoutB1))
           (Some "C"%string)).2.
Proof.
  assert (rowLive Sample.firstBDeleted Sample.rowB1 = false) as Hdead
    by (vm_compute; reflexivity).
  split; [reflexivity|]. split; [exact Hdead|].
  apply (plain_deleted_row_is_transparent 0 Sample.firstBDeleted
           (Sample.cursor NEXT) (Some "C"%string) Sample.statement
           Sample.rowB1 [Sample.rowB2; Sample.rowC]
           eq_refl eq_refl eq_refl Hdead).
Defined.

Lemma continue_to_target_outcome_witness :
  Forall (λ r, rowLive Sample.allLive r = false ∨ col_key r ≠ "Z"%string)
    (pendingRows (Sample.cursor NEXT))
  ∧ callbacks
      (continueFunctionInternal 0 Sample.allLive (Sample.cursor NEXT)
         (Some "Z"%string)).2
    = [OnSuccessNull].
Proof.
  assert (Forall (λ r, rowLive Sample.allLive r = false
                       ∨ col_key r ≠ "Z"%string)
            (pendingRows (Sample.cursor NEXT))) as Hnone.
  { repeat (apply List.Forall_cons; [right; discriminate|]). apply List.Forall_nil. }
  split; [exact Hnone|].
  apply (continue_to_target_outcome 0 Sample.allLive (Sample.cursor NEXT)
           "Z"%string).
  exact Hnone.
Defined.

Lemma plain_advance_finds_first_live_match_witness :
  pendingRows (Sample.cursor NEXT)
  = [Sample.rowB1] ++ Sample.rowB2 :: [Sample.rowC]
  ∧ Forall (λ r', rowLive Sample.firstBDeleted r'
                  && matchesTarget (Some "B"%string) r' = false)
      [Sample.rowB1]
  ∧ callbacks
      (continueFunctionInternal 0 Sample.firstBDeleted (Sample.cursor NEXT)
         (Some "B"%string)).2
    = [OnSuccessCursor
         (positioned (Sample.cursor NEXT) Sample.rowB2 [Sample.rowC])].
Proof.
  assert (Forall (λ r', rowLive Sample.firstBDeleted r'
                        && matchesTarget (Some "B"%string) r' = false)
            [Sample.rowB1]) as Hskipped.
  { apply List.Forall_cons; [vm_compute; reflexivity|apply List.Forall_nil]. }
  split; [reflexivity|]. split; [exact Hskipped|].
  apply (plain_advance_finds_first_live_match 0 Sample.firstBDeleted
           (Sample.cursor NEXT) (Some "B"%string)
           [Sample.rowB1] Sample.rowB2 [Sample.rowC]);
    [eexists; reflexivity | reflexivity | reflexivity | exact Hskipped
    | vm_compute; reflexivity | vm_compute; reflexivity].
Defined.

Lemma no_duplicate_iteration_delivers_live_heads_witness :
  is_Some (m_query (Sample.cursor PREV_NO_DUPLICATE))
  ∧ isNoDuplicate (m_direction (Sample.cursor PREV_NO_DUPLICATE)) = true
  ∧ deliveredRows
      (iterateAll 0 Sample.allLive (Sample.cursor PREV_NO_DUPLICATE))
    = rowIdKey
      <$> (List.filter
             (λ pr, rowLive Sample.allLive pr.2
                    && negb (bool_decide (pr.1 = Some (col_key pr.2))))
             (withPrevious (m_currentKey (Sample.cursor PREV_NO_DUPLICATE))
                (pendingRows (Sample.cursor PREV_NO_DUPLICATE)))).*2.
Proof.
  assert (is_Some (m_query (Sample.cursor PREV_NO_DUPLICATE))) as Hq
    by (eexists; reflexivity).
  split; [exact Hq|]. split; [reflexivity|].
  exact (no_duplicate_iteration_delivers_live_heads 0 Sample.allLive
           (Sample.cursor PREV_NO_DUPLICATE) Hq eq_refl).
Defined.

Lemma advance_fetches_a_prefix_witness :
  is_Some (m_query (Sample.cursor NEXT))
  ∧ ∃ fetched,
      pendingRows (Sample.cursor NEXT)
      = fetched
        ++ pendingRows
             (continueFunctionInternal 0 Sample.firstBDeleted
                (Sample.cursor NEXT) None).1
      ∧ existsQueries
          (continueFunctionInternal 0 Sample.firstBDeleted
             (Sample.cursor NEXT) None).2
        = rowQuery Sample.firstBDeleted <$> fetched
      ∧ querySteps
          (continueFunctionInternal 0 Sample.firstBDeleted
             (Sample.cursor NEXT) None).2
        = replicate (length fetched) SQLResultRow
          ++ (if isNull
                   (m_query
                      (continueFunctionInternal 0 Sample.firstBDeleted
                         (Sample.cursor NEXT) None).1)
              then [SQLResultDone] else []).
Proof.
  assert (is_Some (m_query (Sample.cursor NEXT))) as Hq
    by (eexists; reflexivity).
  split; [exact Hq|].
  exact (advance_fetches_a_prefix 0 Sample.firstBDeleted
           (Sample.cursor NEXT) None Hq).
Defined.

Lemma accessors_show_current_row_witness :
  built 0
    (continueFunctionInternal 0 Sample.allLive
       (create 0 NEXT Sample.statement false) None).1
  ∧ value
      (continueFunctionInternal 0 Sample.allLive
         (create 0 NEXT Sample.statement false) None).1
    = inr (Some "p2"%string).
Proof.
  assert (built 0
            (continueFunctionInternal 0 Sample.allLive
               (create 0 NEXT Sample.statement false) None).1) as Hbuilt
    by apply built_continue, built_create.
  split; [exact Hbuilt|].
  exact (proj2 (proj1 (accessors_show_current_row 0 _ Hbuilt))).
Defined.

Lemma mutation_after_advance_targets_delivered_row_witness :
  m_isSerializedScriptValueCursor (Sample.cursor NEXT) = true
  ∧ Forall (λ r, col_id r ≠ 0) (pendingRows (Sample.cursor NEXT))
  ∧ ∃ r, r ∈ pendingRows (Sample.cursor NEXT)
         ∧ rowLive Sample.allLive r = true
         ∧ m_currentId
             (positioned (Sample.cursor NEXT) Sample.rowB1
                [Sample.rowB2; Sample.rowC])
           = col_id r
         ∧ (update 0
              (positioned (Sample.cursor NEXT) Sample.rowB1
                 [Sample.rowB2; Sample.rowC]) "v").2
           = Delegated
               (StorePut "v"
                  (Some (default (col_key r) (col_idbKeyValue r)))
                  CursorUpdate)
         ∧ (deleteFunction 0
              (positioned (Sample.cursor NEXT) Sample.rowB1
                 [Sample.rowB2; Sample.rowC])).2
           = Delegated
               (StoreDelete
                  (Some (default (col_key r) (col_idbKeyValue r)))).
Proof.
  assert (Forall (λ r, col_id r ≠ 0) (pendingRows (Sample.cursor NEXT)))
    as Hids
    by (repeat (apply List.Forall_cons; [discriminate|]); apply List.Forall_nil).
  split; [reflexivity|]. split; [exact Hids|].
  apply (mutation_after_advance_targets_delivered_row 0 Sample.allLive
           (Sample.cursor NEXT) None _ "v" eq_refl Hids).
  vm_compute. reflexivity.
Defined.

Lemma mutation_after_exhaustion_is_refused_witness :
  callbacks
    (continueFunctionInternal 0 Sample.bothBDeleted (Sample.cursor NEXT)
       (Some "B"%string)).2
  = [OnSuccessNull]
  ∧ (update 0
       (continueFunctionInternal 0 Sample.bothBDeleted (Sample.cursor NEXT)
          (Some "B"%string)).1 "v").2
    = Rejected NOT_ALLOWED_ERR.
Proof.
  assert (callbacks
            (continueFunctionInternal 0 Sample.bothBDeleted
               (Sample.cursor NEXT) (Some "B"%string)).2
          = [OnSuccessNull]) as Hcall by (vm_compute; reflexivity).
  split; [exact Hcall|].
  apply (mutation_after_exhaustion_is_refused 0 Sample.bothBDeleted
           (Sample.cursor NEXT) (Some "B"%string) "v" Hcall).
Defined.

Lemma advance_reads_only_the_rows_table_witness :
  Forall (λ r, authoritativeTable r = IndexData)
    (pendingRows (Sample.cursor NEXT))
  ∧ tableIds Sample.firstBDeleted IndexData
    = tableIds
        {| db_IndexData := db_IndexData Sample.firstBDeleted;
           db_ObjectStoreData := ∅ |} IndexData
  ∧ continueFunctionInternal 0 Sample.firstBDeleted (Sample.cursor NEXT) None
    = continueFunctionInternal 0
        {| db_IndexData := db_IndexData Sample.firstBDeleted;
           db_ObjectStoreData := ∅ |} (Sample.cursor NEXT) None.
Proof.
  assert (Forall (λ r, authoritativeTable r = IndexData)
            (pendingRows (Sample.cursor NEXT))) as Hrows
    by (repeat (apply List.Forall_cons; [reflexivity|]); apply List.Forall_nil).
  assert (tableIds Sample.firstBDeleted IndexData
          = tableIds
              {| db_IndexData := db_IndexData Sample.firstBDeleted;
                 db_ObjectStoreData := ∅ |} IndexData) as Htable
    by (cbn [tableIds db_IndexData]; reflexivity).
  split; [exact Hrows|]. split; [exact Htable|].
  exact (advance_reads_only_the_rows_table 0 Sample.firstBDeleted
           {| db_IndexData := db_IndexData Sample.firstBDeleted;
              db_ObjectStoreData := ∅ |}
           (Sample.cursor NEXT) None IndexData Hrows Htable).
Defined.

(** Entries A, B, B, C, C, D under [NEXT_NO_DUPLICATE], the cursor on A.
    The first task runs after entry 2 was deleted and stops on entry 4, the
    first C; the second runs after entry 5 was deleted too and stops on D.
    The run of C entries got one callback, though the group of B entries
    before it starts with a deleted entry and its own second entry is
    deleted by the time it is fetched. *)
Lemma no_duplicate_one_callback_per_run_witness :
  pendingRows (create 0 NEXT_NO_DUPLICATE Sample.longStatement true)
  = [Sample.rowB1; Sample.rowB2]
    ++ Sample.rowC :: [Sample.rowC2] ++ [Sample.rowD]
  ∧ Forall (λ r, col_key r = col_key Sample.rowC) [Sample.rowC2]
  ∧ lastKey
      (m_currentKey (create 0 NEXT_NO_DUPLICATE Sample.longStatement true))
      [Sample.rowB1; Sample.rowB2]
    ≠ Some (col_key Sample.rowC)
  ∧ existsQueries
      (runQueue 0 (create 0 NEXT_NO_DUPLICATE Sample.longStatement true)
         (advances [Sample.entry2Deleted; Sample.entries2And5Deleted])).2
    !! length [Sample.rowB1; Sample.rowB2]
    = Some (authoritativeTable Sample.rowC, col_id Sample.rowC, true)
  ∧ ∃ delivered1 delivered2,
      deliveredRows
        (callbacks
           (runQueue 0 (create 0 NEXT_NO_DUPLICATE Sample.longStatement true)
              (advances [Sample.entry2Deleted; Sample.entries2And5Deleted])).2)
      = delivered1 ++ rowIdKey Sample.rowC :: delivered2
      ∧ sublist delivered1 (rowIdKey <$> [Sample.rowB1; Sample.rowB2])
      ∧ sublist delivered2 (rowIdKey <$> [Sample.rowD]).
Proof.
  assert (Forall (λ r, col_key r = col_key Sample.rowC) [Sample.rowC2])
    as Hrun
    by (apply List.Forall_cons; [reflexivity|apply List.Forall_nil]).
  assert (lastKey
            (m_currentKey
               (create 0 NEXT_NO_DUPLICATE Sample.longStatement true))
            [Sample.rowB1; Sample.rowB2]
          ≠ Some (col_key Sample.rowC)) as Hprev by discriminate.
  assert (existsQueries
            (runQueue 0
               (create 0 NEXT_NO_DUPLICATE Sample.longStatement true)
               (advances [Sample.entry2Deleted; Sample.entries2And5Deleted])).2
          !! length [Sample.rowB1; Sample.rowB2]
          = Some (authoritativeTable Sample.rowC, col_id Sample.rowC, true))
    as Hfound by (vm_compute; reflexivity).
  split; [reflexivity|]. split; [exact Hrun|]. split; [exact Hprev|].
  split; [exact Hfound|].
  exact (no_duplicate_one_callback_per_run 0
           (create 0 NEXT_NO_DUPLICATE Sample.longStatement true)
           [Sample.entry2Deleted; Sample.entries2And5Deleted]
           [Sample.rowB1; Sample.rowB2] Sample.rowC [Sample.rowC2]
           [Sample.rowD]
           (ex_intro _ Sample.longStatement eq_refl) eq_refl eq_refl
           Hrun Hprev Hfound).
Defined.
